(** * Stock strategy analyzer: indicators, signals and growth simulation

    A shallow embedding of [app.py]: the rolling indicators
    ([calculate_bollinger_bands], [calculate_sma]), the signal derivation
    ([apply_strategy]) and the growth simulation
    ([calculate_investment_growth]).

    Numbers.  The program computes on binary64 floats (pandas / numpy).
    They are modelled by [float64]: a real number, an infinity or NaN, with
    the special-value rules of IEEE 754 arithmetic and *exact* arithmetic on
    finite values.  Rounding, overflow and the sign of zero are not modelled
    there; in particular the rolling statistics are recomputed exactly from
    each window, where pandas updates them bar by bar in binary64.  Where a
    property depends on rounding, the arithmetic of the growth simulation is
    evaluated on primitive binary64 floats (module [Binary64]).

    Tables.  A pandas DataFrame is a mutable object that the functions of
    the program receive by reference and update in place; it is modelled as
    a record stored in a [heap] of objects, and the functions run in a state
    and exception monad over that heap. *)

From Stdlib Require Import Reals Lra ZArith.
From Stdlib Require PrimFloat.
From stdpp Require Import base option list strings gmap.

Local Open Scope string_scope.

(** ** Numbers *)

Module Float.

Local Open Scope R_scope.

(** A binary64 value: finite, infinite ([Inf true] is -inf) or NaN. *)
Inductive float64 : Type :=
  | Num (r : R)
  | Inf (neg : bool)
  | NaN.

Definition Rltb (a b : R) : bool := if Rlt_dec a b then true else false.
Definition Reqb (a b : R) : bool := if Req_dec_T a b then true else false.

(** Sign bit of a finite value (zero counts as positive). *)
Definition negative (r : R) : bool := Rltb r 0.

Definition fopp (x : float64) : float64 :=
  match x with
  | Num a => Num (- a)
  | Inf s => Inf (negb s)
  | NaN => NaN
  end.

Definition fadd (x y : float64) : float64 :=
  match x, y with
  | Num a, Num b => Num (a + b)
  | Inf s, Inf t => if Bool.eqb s t then Inf s else NaN
  | Inf s, Num _ => Inf s
  | Num _, Inf t => Inf t
  | _, _ => NaN
  end.

Definition fsub (x y : float64) : float64 := fadd x (fopp y).

Definition fmul (x y : float64) : float64 :=
  match x, y with
  | Num a, Num b => Num (a * b)
  | Num a, Inf t => if Reqb a 0 then NaN else Inf (xorb (negative a) t)
  | Inf s, Num b => if Reqb b 0 then NaN else Inf (xorb s (negative b))
  | Inf s, Inf t => Inf (xorb s t)
  | _, _ => NaN
  end.

(** numpy's true division: no exception on a zero divisor, the result is
    an infinity, or NaN for 0/0. *)
Definition fdiv (x y : float64) : float64 :=
  match x, y with
  | Num a, Num b =>
      if Reqb b 0 then (if Reqb a 0 then NaN else Inf (negative a))
      else Num (a / b)
  | Num _, Inf _ => Num 0
  | Inf s, Num b => Inf (xorb s (negative b))
  | _, _ => NaN
  end.

(** [x < y] on floats: false as soon as one side is NaN. *)
Definition flt (x y : float64) : bool :=
  match x, y with
  | Num a, Num b => Rltb a b
  | Num _, Inf t => negb t
  | Inf s, Num _ => s
  | Inf s, Inf t => s && negb t
  | _, _ => false
  end.

Definition fgt (x y : float64) : bool := flt y x.

Definition is_nan (x : float64) : bool :=
  match x with NaN => true | _ => false end.

Definition of_Z (z : Z) : float64 := Num (IZR z).

End Float.
Export Float.

(** ** Rolling statistics

    [Series.rolling(window=w)] with the default [min_periods = w]: the value
    at bar [i] is computed from the [w] bars ending at [i], and it is NaN
    when fewer than [w] bars are available or when one of them is not a
    finite number (pandas turns infinities into NaN before rolling). *)

Module Rolling.

Local Open Scope R_scope.

Definition finite (x : float64) : option R :=
  match x with Num r => Some r | _ => None end.

Fixpoint finites (xs : list float64) : option (list R) :=
  match xs with
  | [] => Some []
  | x :: xs' =>
      match finite x, finites xs' with
      | Some r, Some rs => Some (r :: rs)
      | _, _ => None
      end
  end.

(** The observations of the window ending at bar [i] (0-based), when the
    window is full and all its values are finite. *)
Definition window (w : nat) (xs : list float64) (i : nat) : option (list R) :=
  if (0 <? w)%nat && (w <=? S i)%nat
  then finites (take w (drop (S i - w) xs))
  else None.

Definition Rsum (rs : list R) : R := foldr Rplus 0 rs.

Definition mean (rs : list R) : R := Rsum rs / INR (length rs).

(** Sample variance: squared deviations from the mean over [N - 1]
    (pandas' default [ddof = 1]). *)
Definition sample_var (rs : list R) : R :=
  Rsum ((fun r => (r - mean rs) * (r - mean rs)) <$> rs) / (INR (length rs) - 1).

Definition sample_std (rs : list R) : R := sqrt (sample_var rs).

Definition mean_at (w : nat) (xs : list float64) (i : nat) : float64 :=
  match window w xs i with
  | Some rs => Num (mean rs)
  | None => NaN
  end.

(** With [ddof = 1] a window of a single observation has no deviation. *)
Definition std_at (w : nat) (xs : list float64) (i : nat) : float64 :=
  match window w xs i with
  | Some rs => if (1 <? length rs)%nat then Num (sample_std rs) else NaN
  | None => NaN
  end.

Definition rolling_mean (w : nat) (xs : list float64) : list float64 :=
  mean_at w xs <$> seq 0 (length xs).

Definition rolling_std (w : nat) (xs : list float64) : list float64 :=
  std_at w xs <$> seq 0 (length xs).

End Rolling.
Export Rolling.

(** ** Tables and the heap of objects *)

Module Frame.

(** A column holds float64 values or int64 values. *)
Inductive column : Type :=
  | FloatCol (xs : list float64)
  | IntCol (zs : list Z).

(** The values of a column as floats, as arithmetic and comparisons with a
    float column see them. *)
Definition values (c : column) : list float64 :=
  match c with
  | FloatCol xs => xs
  | IntCol zs => of_Z <$> zs
  end.

(** A DataFrame: the index (timestamps, here instants counted in [Z]) and
    the columns by name. *)
Record DataFrame : Type := mkFrame {
  index : list Z;
  columns : gmap string column
}.

Definition loc := nat.

Abbreviation heap := (gmap loc DataFrame).

Inductive exn : Type :=
  | KeyError (k : string)
  | IndexError
  | NoObject (l : loc).

(** Computations that read and update the heap and may raise. *)
Definition M (A : Type) : Type := heap -> (exn + A) * heap.

Definition ret {A} (a : A) : M A := fun h => (inr a, h).

Definition raise {A} (e : exn) : M A := fun h => (inl e, h).

Definition bind {A B} (m : M A) (k : A -> M B) : M B :=
  fun h =>
    match m h with
    | (inl e, h') => (inl e, h')
    | (inr a, h') => k a h'
    end.

#[export] Instance M_ret : MRet M := @ret.
#[export] Instance M_bind : MBind M := fun A B k m => bind m k.

(** [data[k]] *)
Definition getitem (data : loc) (k : string) : M column :=
  fun h =>
    match h !! data with
    | None => (inl (NoObject data), h)
    | Some df =>
        match columns df !! k with
        | Some c => (inr c, h)
        | None => (inl (KeyError k), h)
        end
    end.

Definition set_column (k : string) (c : column) (df : DataFrame) : DataFrame :=
  mkFrame (index df) (<[k := c]> (columns df)).

(** [data[k] = c], for a column [c] computed from [data] itself. *)
Definition setitem (data : loc) (k : string) (c : column) : M unit :=
  fun h =>
    match h !! data with
    | None => (inl (NoObject data), h)
    | Some df => (inr tt, <[data := set_column k c df]> h)
    end.

(** [data[k] = z] for a scalar [z]: an int64 column with [z] on every row. *)
Definition setitem_scalar (data : loc) (k : string) (z : Z) : M unit :=
  fun h =>
    match h !! data with
    | None => (inl (NoObject data), h)
    | Some df =>
        (inr tt, <[data := set_column k (IntCol (replicate (length (index df)) z)) df]> h)
    end.

(** The rows selected by a boolean mask take the value [z]. *)
Definition mask_assign (mask : list bool) (z : Z) (c : column) : column :=
  match c with
  | IntCol zs => IntCol (zip_with (fun (b : bool) old => if b then z else old) mask zs)
  | FloatCol xs => FloatCol (zip_with (fun (b : bool) old => if b then of_Z z else old) mask xs)
  end.

(** [data.loc[mask, k] = z] on an existing column [k]. *)
Definition loc_setitem (data : loc) (mask : list bool) (k : string) (z : Z) : M unit :=
  fun h =>
    match h !! data with
    | None => (inl (NoObject data), h)
    | Some df =>
        match columns df !! k with
        | Some c => (inr tt, <[data := set_column k (mask_assign mask z c) df]> h)
        | None => (inl (KeyError k), h)
        end
    end.

(** [s.iloc[0]] and [s.iloc[-1]] *)
Definition iloc_first (xs : list float64) : M float64 :=
  match head xs with
  | Some x => ret x
  | None => raise IndexError
  end.

Definition iloc_last (xs : list float64) : M float64 :=
  match last xs with
  | Some x => ret x
  | None => raise IndexError
  end.

End Frame.
Export Frame.

(** ** The program *)

Module App.

(** Element-wise arithmetic and comparisons of two columns of one table. *)
Definition col_add (xs ys : list float64) : list float64 := zip_with fadd xs ys.
Definition col_sub (xs ys : list float64) : list float64 := zip_with fsub xs ys.
Definition col_lt (xs ys : list float64) : list bool := zip_with flt xs ys.
Definition col_gt (xs ys : list float64) : list bool := zip_with fgt xs ys.

(** [z * s] for an integer [z] and a column [s]. *)
Definition col_scale (z : Z) (xs : list float64) : list float64 := fmul (of_Z z) <$> xs.

Definition calculate_bollinger_bands (data : loc) (window : nat) (no_of_std : Z) : M loc :=
  close ← getitem data "Close";
  setitem data "SMA" (FloatCol (rolling_mean window (values close)));;
  close ← getitem data "Close";
  setitem data "STD" (FloatCol (rolling_std window (values close)));;
  sma ← getitem data "SMA";
  std ← getitem data "STD";
  setitem data "Upper Band" (FloatCol (col_add (values sma) (col_scale no_of_std (values std))));;
  sma ← getitem data "SMA";
  std ← getitem data "STD";
  setitem data "Lower Band" (FloatCol (col_sub (values sma) (col_scale no_of_std (values std))));;
  mret data.

Definition calculate_sma (data : loc) (short_window long_window : nat) : M loc :=
  close ← getitem data "Close";
  setitem data "SMA_Short" (FloatCol (rolling_mean short_window (values close)));;
  close ← getitem data "Close";
  setitem data "SMA_Long" (FloatCol (rolling_mean long_window (values close)));;
  mret data.

(** The defaults of the two indicator functions, used by [apply_strategy]. *)
Definition default_window : nat := 20.
Definition default_no_of_std : Z := 2.
Definition default_short_window : nat := 50.
Definition default_long_window : nat := 200.

Definition apply_strategy (data : loc) (strategy : string) : M loc :=
  if String.eqb strategy "Bollinger Bands" then
    data ← calculate_bollinger_bands data default_window default_no_of_std;
    setitem_scalar data "Signal" 0;;
    close ← getitem data "Close";
    lower ← getitem data "Lower Band";
    loc_setitem data (col_lt (values close) (values lower)) "Signal" 1;;
    close ← getitem data "Close";
    upper ← getitem data "Upper Band";
    loc_setitem data (col_gt (values close) (values upper)) "Signal" (-1);;
    mret data
  else if String.eqb strategy "SMA Crossover" then
    data ← calculate_sma data default_short_window default_long_window;
    setitem_scalar data "Signal" 0;;
    short ← getitem data "SMA_Short";
    long ← getitem data "SMA_Long";
    loc_setitem data (col_gt (values short) (values long)) "Signal" 1;;
    short ← getitem data "SMA_Short";
    long ← getitem data "SMA_Long";
    loc_setitem data (col_lt (values short) (values long)) "Signal" (-1);;
    mret data
  else mret data.

(** [{'Aggressive': 1.5, 'Moderate': 1.0, 'Passive': 0.75}] *)
Definition style_multipliers : gmap string R :=
  <["Aggressive" := (3 / 2)%R]> (<["Moderate" := 1%R]> (<["Passive" := (3 / 4)%R]> ∅)).

(** [style_multipliers.get(style, 1.0)] *)
Definition multiplier_of (style : string) : R :=
  default 1%R (style_multipliers !! style).

(** [(price / start_price) * amount * multiplier] *)
Definition scaled (start_price : float64) (amount multiplier : R) (price : float64) : float64 :=
  fmul (fmul (fdiv price start_price) (Num amount)) (Num multiplier).

Definition calculate_investment_growth (data : loc) (amount : R) (style : string)
  : M (float64 * float64) :=
  close ← getitem data "Close";
  start_price ← iloc_first (values close);
  close ← getitem data "Close";
  end_price ← iloc_last (values close);
  let multiplier := multiplier_of style in
  let growth := scaled start_price amount multiplier end_price in
  let roi := fmul (fdiv (fsub growth (Num amount)) (Num amount)) (Num 100) in
  close ← getitem data "Close";
  setitem data (style +:+ " Growth")
    (FloatCol (scaled start_price amount multiplier <$> values close));;
  mret (growth, roi).

End App.
Export App.

(** ** Reading the results *)

Module Observe.

(** Markers of the chart: a bar is a buy where [Signal == 1], a sell where
    [Signal == -1], and carries no marker otherwise. *)
Inductive Signal : Type := Buy | Sell | Hold.

Definition signal_of_Z (z : Z) : Signal :=
  if (z =? 1)%Z then Buy else if (z =? -1)%Z then Sell else Hold.

(** The value of column [k] at bar [i] of the table stored at [l]. *)
Definition column_at (h : heap) (l : loc) (k : string) (i : nat) : option float64 :=
  df ← h !! l; c ← columns df !! k; values c !! i.

Definition signal_at (h : heap) (l : loc) (i : nat) : option Signal :=
  df ← h !! l;
  c ← columns df !! "Signal";
  match c with
  | IntCol zs => signal_of_Z <$> zs !! i
  | FloatCol _ => None
  end.

(** Column [k] of the table stored at [l]. *)
Definition column_of (h : heap) (l : loc) (k : string) : option column :=
  df ← h !! l; columns df !! k.

(** The timestamps of the table stored at [l]. *)
Definition index_of (h : heap) (l : loc) : option (list Z) := index <$> h !! l.

(** The two components of the pair returned by the growth simulation. *)
Definition growth_of (r : (exn + float64 * float64) * heap) : option float64 :=
  match r.1 with inr (g, _) => Some g | inl _ => None end.

Definition roi_percent_of (r : (exn + float64 * float64) * heap) : option float64 :=
  match r.1 with inr (_, roi) => Some roi | inl _ => None end.

(** The value and the final heap of a run. *)
Definition result {A} (r : (exn + A) * heap) : exn + A := r.1.
Definition final {A} (r : (exn + A) * heap) : heap := r.2.

(** [x >= y] on floats (false when one side is NaN). *)
Definition fge (x y : float64) : Prop :=
  match x, y with
  | Num a, Num b => (b <= a)%R
  | Inf s, Num _ => s = false
  | Num _, Inf t => t = true
  | Inf s, Inf t => s = false \/ t = true
  | _, _ => False
  end.

End Observe.
Export Observe.


(** ** The tables the runs leave behind *)

Module Closed.

Definition upper_band (w : nat) (k : Z) (xs : list float64) : list float64 :=
  col_add (rolling_mean w xs) (col_scale k (rolling_std w xs)).

Definition lower_band (w : nat) (k : Z) (xs : list float64) : list float64 :=
  col_sub (rolling_mean w xs) (col_scale k (rolling_std w xs)).

(** The table after [calculate_bollinger_bands]. *)
Definition bollinger_frame (w : nat) (k : Z) (c : column) (df : DataFrame) : DataFrame :=
  set_column "Lower Band" (FloatCol (lower_band w k (values c)))
    (set_column "Upper Band" (FloatCol (upper_band w k (values c)))
      (set_column "STD" (FloatCol (rolling_std w (values c)))
        (set_column "SMA" (FloatCol (rolling_mean w (values c))) df))).

(** The table after [calculate_sma]. *)
Definition sma_frame (ws wl : nat) (c : column) (df : DataFrame) : DataFrame :=
  set_column "SMA_Long" (FloatCol (rolling_mean wl (values c)))
    (set_column "SMA_Short" (FloatCol (rolling_mean ws (values c))) df).

(** The Signal column: 0 everywhere, then 1 on the buy mask, then -1 on the
    sell mask. *)
Definition signals (n : nat) (buy sell : list bool) : column :=
  mask_assign sell (-1) (mask_assign buy 1 (IntCol (replicate n 0%Z))).

(** The table after [apply_strategy] with "Bollinger Bands". *)
Definition bollinger_strategy_frame (c : column) (df : DataFrame) : DataFrame :=
  let xs := values c in
  set_column "Signal"
    (signals (length (index df))
       (col_lt xs (lower_band default_window default_no_of_std xs))
       (col_gt xs (upper_band default_window default_no_of_std xs)))
    (bollinger_frame default_window default_no_of_std c df).

(** The table after [apply_strategy] with "SMA Crossover". *)
Definition sma_strategy_frame (c : column) (df : DataFrame) : DataFrame :=
  let short := rolling_mean default_short_window (values c) in
  let long := rolling_mean default_long_window (values c) in
  set_column "Signal"
    (signals (length (index df)) (col_gt short long) (col_lt short long))
    (sma_frame default_short_window default_long_window c df).

(** The four columns written by [calculate_bollinger_bands]. *)
Definition bollinger_fields : list string := ["SMA"; "STD"; "Upper Band"; "Lower Band"].

(** The two columns written by [calculate_sma]. *)
Definition sma_fields : list string := ["SMA_Short"; "SMA_Long"].

(** The price columns of the input. *)
Definition ohlc_fields : list string := ["Open"; "High"; "Low"; "Close"].

(** [((growth - amount) / amount) * 100] *)
Definition roi_of (growth : float64) (amount : R) : float64 :=
  fmul (fdiv (fsub growth (Num amount)) (Num amount)) (Num 100).

(** The table after [calculate_investment_growth]. *)
Definition growth_frame (start_price : float64) (amount : R) (style : string)
    (c : column) (df : DataFrame) : DataFrame :=
  set_column (style +:+ " Growth")
    (FloatCol (scaled start_price amount (multiplier_of style) <$> values c)) df.

End Closed.
Export Closed.

(** ** Sample inputs *)

Module Sample.

(** A table of daily bars numbered from 0, each bar flat at its close
    (open = high = low = close). *)
Definition bars (closes : list R) : DataFrame :=
  let col := FloatCol (Num <$> closes) in
  mkFrame (Z.of_nat <$> seq 0 (length closes))
    (<["Open" := col]> (<["High" := col]> (<["Low" := col]> (<["Close" := col]> ∅)))).

(** A heap holding one table, at location 0. *)
Definition heap_of (df : DataFrame) : heap := <[0%nat := df]> ∅.

Definition rising : list R := [100; 110; 121]%R.
Definition falling : list R := [100; 50]%R.
Definition single : list R := [100]%R.
Definition from_zero : list R := [0; 5]%R.
Definition flat25 : list R := replicate 25 50%R.
Definition flat19 : list R := replicate 19 50%R.
Definition flat200 : list R := replicate 200 50%R.

End Sample.
Export Sample.

(** ** Per-bar readings and further sample inputs *)

Module Derived.
Local Open Scope nat_scope.

(** The bands of one bar and the signal they give. *)
Definition lower_at (xs : list float64) (i : nat) : float64 :=
  fsub (mean_at default_window xs i) (fmul (of_Z default_no_of_std) (std_at default_window xs i)).

Definition upper_at (xs : list float64) (i : nat) : float64 :=
  fadd (mean_at default_window xs i) (fmul (of_Z default_no_of_std) (std_at default_window xs i)).

Definition bollinger_mark (xs : list float64) (i : nat) (x : float64) : Z :=
  if fgt x (upper_at xs i) then (-1)%Z else if flt x (lower_at xs i) then 1%Z else 0%Z.

Definition sma_mark (xs : list float64) (i : nat) : Z :=
  let short := mean_at default_short_window xs i in
  let long := mean_at default_long_window xs i in
  if flt short long then (-1)%Z else if fgt short long then 1%Z else 0%Z.

(** Twenty-five closes of 50 with the close of bar 10 missing. *)
Definition gapped25 : list float64 :=
  replicate 10 (Num 50) ++ NaN :: replicate 14 (Num 50).

Definition gapped_frame : DataFrame :=
  mkFrame (Z.of_nat <$> seq 0 25) (<["Close" := FloatCol gapped25]> ∅).

(** The closes 1, 2, .. 25, and the same series continued by two more bars. *)
Definition climb25 : list R := INR <$> seq 1 25.
Definition climb27 : list R := (climb25 ++ [3%R; 400%R])%list.

End Derived.
Export Derived.

(** ** The growth arithmetic in binary64

    The arithmetic of [calculate_investment_growth] once more, on the Close
    column as a list of binary64 values and with the rounding of IEEE 754
    (primitive floats), for the properties that depend on rounding.  The
    principal is the float of the Python number; an empty column is the
    IndexError of [iloc[0]]. *)

Module Binary64.
Import PrimFloat.
Local Open Scope float_scope.

(** [{'Aggressive': 1.5, 'Moderate': 1.0, 'Passive': 0.75}.get(style, 1.0)] *)
Definition multiplier64 (style : string) : float :=
  if String.eqb style "Aggressive" then 1.5
  else if String.eqb style "Moderate" then 1
  else if String.eqb style "Passive" then 0.75
  else 1.

(** The pair [(growth, roi)] and the column written by the call. *)
Definition calculate_investment_growth64
    (close : list float) (amount : float) (style : string)
  : option (float * float * list float) :=
  match head close, last close with
  | Some start_price, Some end_price =>
      let multiplier := multiplier64 style in
      let growth := (end_price / start_price) * amount * multiplier in
      let roi := ((growth - amount) / amount) * 100 in
      Some (growth, roi, (fun c => (c / start_price) * amount * multiplier) <$> close)
  | _, _ => None
  end.

(** [(growth / amount - 1) * 100], the formula the ROI is compared with. *)
Definition roi_formula64 (growth amount : float) : float :=
  (growth / amount - 1) * 100.

End Binary64.

(** ** Closed forms of the runs *)

Module Run.

Lemma bind_run {A B} (m : M A) (f : A → M B) (h h' : heap) a :
  m h = (inr a, h') → (m ≫= f) h = f a h'.
Proof. intros E. unfold mbind, M_bind, bind. by rewrite E. Qed.

Lemma bind_raise {A B} (m : M A) (f : A → M B) (h h' : heap) e :
  m h = (inl e, h') → (m ≫= f) h = (inl e, h').
Proof. intros E. unfold mbind, M_bind, bind. by rewrite E. Qed.

Lemma getitem_run (h : heap) l df k c :
  h !! l = Some df → columns df !! k = Some c → getitem l k h = (inr c, h).
Proof. intros Hl Hk. unfold getitem. by rewrite Hl, Hk. Qed.

Lemma getitem_missing (h : heap) l df k :
  h !! l = Some df → columns df !! k = None → getitem l k h = (inl (KeyError k), h).
Proof. intros Hl Hk. unfold getitem. by rewrite Hl, Hk. Qed.

Lemma setitem_run (h : heap) l df k c :
  h !! l = Some df → setitem l k c h = (inr tt, <[l := set_column k c df]> h).
Proof. intros Hl. unfold setitem. by rewrite Hl. Qed.

Lemma setitem_scalar_run (h : heap) l df k z :
  h !! l = Some df →
  setitem_scalar l k z h
  = (inr tt, <[l := set_column k (IntCol (replicate (length (index df)) z)) df]> h).
Proof. intros Hl. unfold setitem_scalar. by rewrite Hl. Qed.

Lemma loc_setitem_run (h : heap) l df mask k z c :
  h !! l = Some df → columns df !! k = Some c →
  loc_setitem l mask k z h = (inr tt, <[l := set_column k (mask_assign mask z c) df]> h).
Proof. intros Hl Hk. unfold loc_setitem. by rewrite Hl, Hk. Qed.

Lemma set_column_twice k c1 c2 df :
  set_column k c2 (set_column k c1 df) = set_column k c2 df.
Proof. unfold set_column. cbn. by rewrite insert_insert_eq. Qed.

Lemma index_set_column k c df : index (set_column k c df) = index df.
Proof. reflexivity. Qed.

Lemma lookup_set_column k k' c df :
  columns (set_column k c df) !! k' = if decide (k = k') then Some c else columns df !! k'.
Proof. unfold set_column. cbn. apply lookup_insert. Qed.

Lemma lookup_set_column_eq k c df : columns (set_column k c df) !! k = Some c.
Proof. rewrite lookup_set_column. by case_decide. Qed.

Lemma lookup_set_column_ne k k' c df :
  k ≠ k' → columns (set_column k c df) !! k' = columns df !! k'.
Proof. intros. rewrite lookup_set_column. by case_decide. Qed.

(** One statement of a run: a read of a column or a write of the table. *)
Ltac column_known :=
  repeat first
    [ eassumption
    | apply lookup_set_column_eq
    | rewrite lookup_set_column_ne by discriminate ].

Ltac object_known := first [ eassumption | apply lookup_insert_eq ].

Ltac run_step :=
  first
    [ erewrite bind_run by (eapply getitem_run; [ object_known | column_known ])
    | erewrite bind_run by (eapply setitem_run; object_known)
    | erewrite bind_run by (eapply setitem_scalar_run; object_known)
    | erewrite bind_run by (eapply loc_setitem_run; [ object_known | column_known ]) ];
  rewrite ?insert_insert_eq.

Lemma calculate_bollinger_bands_run (h : heap) l df c w k :
  h !! l = Some df → columns df !! "Close" = Some c →
  calculate_bollinger_bands l w k h = (inr l, <[l := bollinger_frame w k c df]> h).
Proof.
  intros Hl Hc. unfold calculate_bollinger_bands.
  do 10 run_step. reflexivity.
Qed.

Lemma calculate_sma_run (h : heap) l df c ws wl :
  h !! l = Some df → columns df !! "Close" = Some c →
  calculate_sma l ws wl h = (inr l, <[l := sma_frame ws wl c df]> h).
Proof.
  intros Hl Hc. unfold calculate_sma.
  do 4 run_step. reflexivity.
Qed.

End Run.
Export Run.

Module RunStrategy.

Lemma apply_strategy_bollinger_run (h : heap) l df c :
  h !! l = Some df → columns df !! "Close" = Some c →
  apply_strategy l "Bollinger Bands" h = (inr l, <[l := bollinger_strategy_frame c df]> h).
Proof.
  intros Hl Hc. unfold apply_strategy. cbn [String.eqb Ascii.eqb Bool.eqb].
  erewrite bind_run by (eapply calculate_bollinger_bands_run; eauto).
  unfold bollinger_frame.
  do 7 run_step.
  rewrite !set_column_twice. reflexivity.
Qed.

Lemma apply_strategy_sma_run (h : heap) l df c :
  h !! l = Some df → columns df !! "Close" = Some c →
  apply_strategy l "SMA Crossover" h = (inr l, <[l := sma_strategy_frame c df]> h).
Proof.
  intros Hl Hc. unfold apply_strategy. cbn [String.eqb Ascii.eqb Bool.eqb].
  erewrite bind_run by (eapply calculate_sma_run; eauto).
  unfold sma_frame.
  do 7 run_step.
  rewrite !set_column_twice. reflexivity.
Qed.

End RunStrategy.
Export RunStrategy.

(** ** Bars, windows and masks *)

Module Bars.
Local Open Scope nat_scope.

Lemma finites_fmap rs : finites (Num <$> rs) = Some rs.
Proof. induction rs as [|r rs IH]; cbn; [done|]. by rewrite IH. Qed.

Lemma finites_inv xs rs : finites xs = Some rs → xs = Num <$> rs.
Proof.
  revert rs. induction xs as [|x xs IH]; intros rs H; cbn in H.
  - by simplify_eq.
  - destruct x as [r| |]; cbn in H; try discriminate.
    destruct (finites xs) as [rs'|]; [|discriminate].
    simplify_eq. cbn. f_equal. by apply IH.
Qed.

Lemma finites_Some xs rs : finites xs = Some rs ↔ xs = Num <$> rs.
Proof. split; [apply finites_inv | intros ->; apply finites_fmap]. Qed.

Lemma window_early w xs i : S i < w → window w xs i = None.
Proof.
  intros H. unfold window.
  destruct (Nat.leb_spec w (S i)); [lia|]. by rewrite andb_false_r.
Qed.

Lemma window_Some w xs i rs :
  window w xs i = Some rs → i < length xs →
  0 < w ∧ w ≤ S i ∧ length rs = w ∧ take w (drop (S i - w) xs) = Num <$> rs
  ∧ ∃ r, xs !! i = Some (Num r) ∧ last rs = Some r.
Proof.
  unfold window. intros H Hi.
  destruct (Nat.ltb_spec 0 w); [|discriminate].
  destruct (Nat.leb_spec w (S i)); [|discriminate].
  cbn in H. apply finites_Some in H.
  assert (Hlen : length rs = w).
  { apply (f_equal length) in H. rewrite length_fmap, length_take, length_drop in H. lia. }
  split_and!; try done.
  assert (Hlast : (Num <$> rs) !! (w - 1) = xs !! i).
  { rewrite <- H. rewrite lookup_take_lt by lia. rewrite lookup_drop. f_equal. lia. }
  rewrite list_lookup_fmap in Hlast.
  destruct (rs !! (w - 1)) as [r|] eqn:E.
  - exists r. split; [by rewrite <- Hlast|].
    rewrite last_lookup. rewrite Hlen. replace (Nat.pred w) with (w - 1) by lia. done.
  - apply lookup_ge_None in E. lia.
Qed.


Lemma window_full w xs i :
  0 < w → w ≤ S i → i < length xs →
  (∀ j, S i - w ≤ j → j ≤ i → ∃ r, xs !! j = Some (Num r)) →
  ∃ rs, window w xs i = Some rs.
Proof.
  intros H0 Hw Hi Hfin. unfold window.
  destruct (Nat.ltb_spec 0 w); [|lia].
  destruct (Nat.leb_spec w (S i)); [|lia]. cbn.
  assert (Hall : Forall (λ x, ∃ r, x = Num r) (take w (drop (S i - w) xs))).
  { apply Forall_lookup. intros j x Hj.
    assert (j < w) by (apply lookup_lt_Some in Hj; rewrite length_take in Hj; lia).
    rewrite lookup_take_lt, lookup_drop in Hj by done.
    destruct (Hfin (S i - w + j)) as [r Hr]; [lia..|]. exists r. congruence. }
  induction Hall as [|x ys [r ->] _ [rs IH]]; cbn.
  - by exists [].
  - rewrite IH. by exists (r :: rs).
Qed.

Lemma rolling_mean_lookup w xs i :
  i < length xs → rolling_mean w xs !! i = Some (mean_at w xs i).
Proof.
  intros Hi. unfold rolling_mean. by rewrite list_lookup_fmap, lookup_seq_lt.
Qed.

Lemma rolling_std_lookup w xs i :
  i < length xs → rolling_std w xs !! i = Some (std_at w xs i).
Proof.
  intros Hi. unfold rolling_std. by rewrite list_lookup_fmap, lookup_seq_lt.
Qed.

Lemma rolling_mean_length w xs : length (rolling_mean w xs) = length xs.
Proof. unfold rolling_mean. by rewrite length_fmap, length_seq. Qed.

Lemma rolling_std_length w xs : length (rolling_std w xs) = length xs.
Proof. unfold rolling_std. by rewrite length_fmap, length_seq. Qed.

Lemma upper_band_lookup w k xs i :
  i < length xs →
  upper_band w k xs !! i = Some (fadd (mean_at w xs i) (fmul (of_Z k) (std_at w xs i))).
Proof.
  intros Hi. unfold upper_band, col_add, col_scale.
  by rewrite lookup_zip_with, rolling_mean_lookup, list_lookup_fmap, rolling_std_lookup.
Qed.

Lemma lower_band_lookup w k xs i :
  i < length xs →
  lower_band w k xs !! i = Some (fsub (mean_at w xs i) (fmul (of_Z k) (std_at w xs i))).
Proof.
  intros Hi. unfold lower_band, col_sub, col_scale.
  by rewrite lookup_zip_with, rolling_mean_lookup, list_lookup_fmap, rolling_std_lookup.
Qed.

Lemma upper_band_length w k xs : length (upper_band w k xs) = length xs.
Proof.
  unfold upper_band, col_add, col_scale.
  rewrite length_zip_with, length_fmap, rolling_mean_length, rolling_std_length. lia.
Qed.

Lemma lower_band_length w k xs : length (lower_band w k xs) = length xs.
Proof.
  unfold lower_band, col_sub, col_scale.
  rewrite length_zip_with, length_fmap, rolling_mean_length, rolling_std_length. lia.
Qed.

(** The entry of the Signal column at a bar covered by both masks. *)
Lemma signals_lookup n buy sell i (b s : bool) :
  i < n → buy !! i = Some b → sell !! i = Some s →
  ∃ zs, signals n buy sell = IntCol zs
        ∧ zs !! i = Some (if s then (-1)%Z else if b then 1%Z else 0%Z).
Proof.
  intros Hi Hb Hs. unfold signals, mask_assign. eexists. split; [reflexivity|].
  rewrite !lookup_zip_with, Hs, Hb. cbn.
  rewrite lookup_replicate_2 by done. reflexivity.
Qed.

End Bars.
Export Bars.

(** ** Columns of the tables the runs leave behind *)

Module Columns.
Local Open Scope nat_scope.

Lemma column_at_insert (h : heap) l df k i :
  column_at (<[l := df]> h) l k i = (c ← columns df !! k; values c !! i).
Proof. unfold column_at. by rewrite lookup_insert_eq. Qed.

Lemma signal_at_insert (h : heap) l df i zs :
  columns df !! "Signal" = Some (IntCol zs) →
  signal_at (<[l := df]> h) l i = signal_of_Z <$> zs !! i.
Proof. intros H. unfold signal_at. rewrite lookup_insert_eq. cbn. by rewrite H. Qed.

Lemma bollinger_frame_column w k c df key :
  columns (bollinger_frame w k c df) !! key =
    if decide (key = "Lower Band") then Some (FloatCol (lower_band w k (values c)))
    else if decide (key = "Upper Band") then Some (FloatCol (upper_band w k (values c)))
    else if decide (key = "STD") then Some (FloatCol (rolling_std w (values c)))
    else if decide (key = "SMA") then Some (FloatCol (rolling_mean w (values c)))
    else columns df !! key.
Proof.
  unfold bollinger_frame. rewrite !lookup_set_column.
  repeat case_decide; congruence.
Qed.

Lemma sma_frame_column ws wl c df key :
  columns (sma_frame ws wl c df) !! key =
    if decide (key = "SMA_Long") then Some (FloatCol (rolling_mean wl (values c)))
    else if decide (key = "SMA_Short") then Some (FloatCol (rolling_mean ws (values c)))
    else columns df !! key.
Proof.
  unfold sma_frame. rewrite !lookup_set_column.
  repeat case_decide; congruence.
Qed.

Lemma bollinger_strategy_frame_column c df key :
  key ≠ "Signal" →
  columns (bollinger_strategy_frame c df) !! key
  = columns (bollinger_frame default_window default_no_of_std c df) !! key.
Proof. intros H. unfold bollinger_strategy_frame. cbn zeta. by rewrite lookup_set_column_ne. Qed.

Lemma sma_strategy_frame_column c df key :
  key ≠ "Signal" →
  columns (sma_strategy_frame c df) !! key
  = columns (sma_frame default_short_window default_long_window c df) !! key.
Proof. intros H. unfold sma_strategy_frame. cbn zeta. by rewrite lookup_set_column_ne. Qed.

End Columns.
Export Columns.

(** ** Windows behind the bands, and the columns of the strategy tables *)

Module Signals.
Local Open Scope nat_scope.

Lemma Rltb_true a b : Rltb a b = true ↔ (a < b)%R.
Proof. unfold Rltb. destruct (Rlt_dec a b); split; intros; try done; lra. Qed.

Lemma Rltb_false a b : Rltb a b = false ↔ (b <= a)%R.
Proof. unfold Rltb. destruct (Rlt_dec a b); split; intros; try done; lra. Qed.

(** A bar at which a band is a number: its window is full and finite. *)
Lemma band_defined w xs i :
  i < length xs →
  (∃ rs, window w xs i = Some rs ∧ 1 < length rs
         ∧ mean_at w xs i = Num (mean rs) ∧ std_at w xs i = Num (sample_std rs))
  ∨ (mean_at w xs i = NaN ∧ std_at w xs i = NaN)
  ∨ (∃ rs, window w xs i = Some rs ∧ length rs = 1
         ∧ mean_at w xs i = Num (mean rs) ∧ std_at w xs i = NaN).
Proof.
  intros Hi. unfold mean_at, std_at.
  destruct (window w xs i) as [rs|] eqn:E; [|by right; left].
  destruct (window_Some _ _ _ _ E Hi) as (H0 & Hw & Hlen & _).
  destruct (Nat.ltb_spec 1 (length rs)).
  - left. by exists rs.
  - right; right. exists rs. split_and!; try done. lia.
Qed.

Lemma sample_std_nonneg rs : (0 <= sample_std rs)%R.
Proof. apply sqrt_pos. Qed.


Ltac pick_column :=
  repeat match goal with
    | |- context [decide (?a = ?a)] => rewrite (decide_True (P := a = a)) by reflexivity
    | |- context [decide (?a = ?b)] => rewrite (decide_False (P := a = b)) by discriminate
    end.

Lemma bollinger_columns c df :
  let f := bollinger_strategy_frame c df in
  let xs := values c in
  columns f !! "SMA" = Some (FloatCol (rolling_mean default_window xs))
  ∧ columns f !! "STD" = Some (FloatCol (rolling_std default_window xs))
  ∧ columns f !! "Upper Band" = Some (FloatCol (upper_band default_window default_no_of_std xs))
  ∧ columns f !! "Lower Band" = Some (FloatCol (lower_band default_window default_no_of_std xs))
  ∧ columns f !! "Close" = columns df !! "Close"
  ∧ columns f !! "Signal"
    = Some (signals (length (index df))
              (col_lt xs (lower_band default_window default_no_of_std xs))
              (col_gt xs (upper_band default_window default_no_of_std xs))).
Proof.
  cbn zeta. split_and!;
    try (rewrite bollinger_strategy_frame_column, bollinger_frame_column by discriminate;
         by pick_column).
  unfold bollinger_strategy_frame. cbn zeta. apply lookup_set_column_eq.
Qed.

Lemma sma_columns c df :
  let f := sma_strategy_frame c df in
  let short := rolling_mean default_short_window (values c) in
  let long := rolling_mean default_long_window (values c) in
  columns f !! "SMA_Short" = Some (FloatCol short)
  ∧ columns f !! "SMA_Long" = Some (FloatCol long)
  ∧ columns f !! "Close" = columns df !! "Close"
  ∧ columns f !! "Signal"
    = Some (signals (length (index df)) (col_gt short long) (col_lt short long)).
Proof.
  cbn zeta. split_and!;
    try (rewrite sma_strategy_frame_column, sma_frame_column by discriminate;
         by pick_column).
  unfold sma_strategy_frame. cbn zeta. apply lookup_set_column_eq.
Qed.

End Signals.
Export Signals.

(** ** The growth simulation *)

Module Growth.

Lemma multiplier_of_cases style :
  (style = "Aggressive" ∧ multiplier_of style = (3 / 2)%R)
  ∨ (style = "Moderate" ∧ multiplier_of style = 1%R)
  ∨ (style = "Passive" ∧ multiplier_of style = (3 / 4)%R)
  ∨ (style ≠ "Aggressive" ∧ style ≠ "Moderate" ∧ style ≠ "Passive"
     ∧ multiplier_of style = 1%R).
Proof.
  unfold multiplier_of, style_multipliers.
  rewrite !lookup_insert, lookup_empty.
  repeat case_decide; subst; cbn; eauto 10.
Qed.

Lemma multiplier_of_pos style : (0 < multiplier_of style)%R.
Proof.
  destruct (multiplier_of_cases style) as [[_ ->]|[[_ ->]|[[_ ->]|(_ & _ & _ & ->)]]]; lra.
Qed.

Lemma multiplier_aggressive : multiplier_of "Aggressive" = (3 / 2)%R.
Proof. destruct (multiplier_of_cases "Aggressive") as [[_ H]|[[? _]|[[? _]|(? & _)]]]; done. Qed.

Lemma multiplier_moderate : multiplier_of "Moderate" = 1%R.
Proof. destruct (multiplier_of_cases "Moderate") as [[? _]|[[_ H]|[[? _]|(_ & ? & _)]]]; done. Qed.

Lemma multiplier_passive : multiplier_of "Passive" = (3 / 4)%R.
Proof. destruct (multiplier_of_cases "Passive") as [[? _]|[[? _]|[[_ H]|(_ & _ & ? & _)]]]; done. Qed.

Lemma Reqb_true a b : a = b → Reqb a b = true.
Proof. intros ->. unfold Reqb. by destruct (Req_dec_T b b). Qed.

Lemma Reqb_false a b : a ≠ b → Reqb a b = false.
Proof. intros H. unfold Reqb. by destruct (Req_dec_T a b). Qed.

(** [(x / s) * amount * m] on numbers, for a non-zero [s]. *)
Lemma scaled_num s amount m x :
  s ≠ 0%R → scaled (Num s) amount m (Num x) = Num (x / s * amount * m).
Proof. intros Hs. unfold scaled. cbn. by rewrite Reqb_false. Qed.

Lemma calculate_investment_growth_run (h : heap) l df c amount style s e :
  h !! l = Some df → columns df !! "Close" = Some c →
  head (values c) = Some s → last (values c) = Some e →
  calculate_investment_growth l amount style h
  = (inr (scaled s amount (multiplier_of style) e,
          roi_of (scaled s amount (multiplier_of style) e) amount),
     <[l := growth_frame s amount style c df]> h).
Proof.
  intros Hl Hc Hs He. unfold calculate_investment_growth.
  run_step.
  erewrite bind_run by (unfold iloc_first; rewrite Hs; reflexivity).
  run_step.
  erewrite bind_run by (unfold iloc_last; rewrite He; reflexivity).
  cbn zeta. do 2 run_step. reflexivity.
Qed.

Lemma calculate_investment_growth_empty (h : heap) l df c amount style :
  h !! l = Some df → columns df !! "Close" = Some c → values c = [] →
  calculate_investment_growth l amount style h = (inl IndexError, h).
Proof.
  intros Hl Hc Hnil. unfold calculate_investment_growth.
  run_step.
  erewrite bind_raise; [reflexivity|]. by rewrite Hnil.
Qed.

Lemma head_last_nonempty {A} (xs : list A) :
  xs ≠ [] → ∃ s e, head xs = Some s ∧ last xs = Some e.
Proof.
  intros H. destruct xs as [|x xs]; [done|]. exists x.
  destruct (last (x :: xs)) as [e|] eqn:E; [eauto|].
  by apply last_None in E.
Qed.

(** The ROI of the code and the ROI of the formula are the same value. *)
Lemma roi_of_formula g amount :
  roi_of g amount = fmul (fsub (fdiv g (Num amount)) (Num 1)) (Num 100).
Proof.
  unfold roi_of. destruct g as [x|s|]; cbn; [|done..].
  unfold Reqb. destruct (Req_dec_T amount 0) as [->|Hne].
  - replace (x + - 0)%R with x by lra.
    destruct (Req_dec_T x 0) as [->|Hx]; cbn; [done|].
    unfold Reqb. by destruct (Req_dec_T 100 0).
  - cbn. f_equal. by field.
Qed.

End Growth.
Export Growth.

(** * Properties *)

Local Open Scope nat_scope.

(** C5. Bollinger Bands strategy: at every bar where both bands are numbers,
    the close is a number too and the signal is Buy exactly when
    close < lower, Sell exactly when close > upper, and Hold otherwise, all
    read on that same bar; a close equal to a band gives Hold. *)
Theorem bollinger_signal_rule (h : heap) l df c :
  h !! l = Some df → columns df !! "Close" = Some c →
  length (values c) = length (index df) →
  let run := apply_strategy l "Bollinger Bands" h in
  result run = inr l ∧
  ∀ i lo up,
    column_at (final run) l "Lower Band" i = Some (Num lo) →
    column_at (final run) l "Upper Band" i = Some (Num up) →
    ∃ x s,
      column_at (final run) l "Close" i = Some (Num x)
      ∧ signal_at (final run) l i = Some s
      ∧ (s = Buy ↔ (x < lo)%R)
      ∧ (s = Sell ↔ (x > up)%R)
      ∧ (s = Hold ↔ (lo <= x <= up)%R)
      ∧ (x = lo ∨ x = up → s = Hold).
Proof.
  intros Hl Hc Hlen run. subst run.
  rewrite (apply_strategy_bollinger_run _ _ _ _ Hl Hc). unfold result, final. cbn [fst snd].
  split; [done|]. intros i lo up Hlo Hup.
  destruct (bollinger_columns c df) as (_ & _ & Kup & Klo & Kc & Ksig).
  rewrite column_at_insert in Hlo, Hup |- *.
  rewrite Klo in Hlo. rewrite Kup in Hup. rewrite Kc, Hc. cbn in Hlo, Hup |- *.
  assert (Hi : i < length (values c)).
  { apply lookup_lt_Some in Hlo. by rewrite lower_band_length in Hlo. }
  pose proof (lower_band_lookup default_window default_no_of_std _ _ Hi) as Elo.
  pose proof (upper_band_lookup default_window default_no_of_std _ _ Hi) as Eup.
  destruct (band_defined default_window (values c) i Hi)
    as [(rs & Hw & Hn & Hm & Hs) | [[Hm Hs] | (rs & Hw & Hn & Hm & Hs)]];
    rewrite Hm, Hs in Elo, Eup; cbn in Elo, Eup;
    rewrite Elo in Hlo; rewrite Eup in Hup; try discriminate.
  destruct (window_Some _ _ _ _ Hw Hi) as (_ & _ & _ & _ & x & Hx & _).
  pose proof (sample_std_nonneg rs) as Hpos.
  injection Hlo as Hlo. injection Hup as Hup.
  destruct (signals_lookup (length (index df))
              (col_lt (values c) (lower_band default_window default_no_of_std (values c)))
              (col_gt (values c) (upper_band default_window default_no_of_std (values c)))
              i (Rltb x lo) (Rltb up x)) as (zs & Ezs & Hz).
  { lia. }
  { unfold col_lt. rewrite lookup_zip_with, Hx, Elo. cbn. by rewrite Hlo. }
  { unfold col_gt. rewrite lookup_zip_with, Hx, Eup. cbn. by rewrite Hup. }
  rewrite Ezs in Ksig. rewrite (signal_at_insert _ _ _ _ _ Ksig), Hz. cbn.
  exists x. eexists. split; [done|]. split; [reflexivity|].
  change (IZR default_no_of_std) with 2%R in *.
  unfold Rltb. destruct (Rlt_dec up x) as [Eu|Eu], (Rlt_dec x lo) as [El|El]; cbn;
    split_and!; try (split; intros; try discriminate; try done; lra);
    try (intros [->| ->]; try done; lra).
Qed.

Lemma mean_at_cases w xs i :
  mean_at w xs i = NaN ∨ ∃ r, mean_at w xs i = Num r.
Proof. unfold mean_at. destruct (window w xs i); eauto. Qed.

Lemma flt_nan_r x : flt x NaN = false.
Proof. by destruct x. Qed.

Lemma flt_nan_l x : flt NaN x = false.
Proof. done. Qed.

(** C6. SMA Crossover strategy: at every bar where both averages are
    numbers, the signal is Buy iff sma_short > sma_long, Sell iff
    sma_short < sma_long and Hold iff they are equal.  The rule reads the
    two levels of the bar itself and nothing of its neighbours, so it holds
    on every bar of a run, not only where the averages cross. *)
Theorem sma_crossover_signal_rule (h : heap) l df c :
  h !! l = Some df → columns df !! "Close" = Some c →
  length (values c) = length (index df) →
  let run := apply_strategy l "SMA Crossover" h in
  result run = inr l ∧
  ∀ i a b,
    column_at (final run) l "SMA_Short" i = Some (Num a) →
    column_at (final run) l "SMA_Long" i = Some (Num b) →
    ∃ s,
      signal_at (final run) l i = Some s
      ∧ (s = Buy ↔ (a > b)%R)
      ∧ (s = Sell ↔ (a < b)%R)
      ∧ (s = Hold ↔ a = b).
Proof.
  intros Hl Hc Hlen run. subst run.
  rewrite (apply_strategy_sma_run _ _ _ _ Hl Hc). unfold result, final. cbn [fst snd].
  split; [done|]. intros i a b Ha Hb.
  destruct (sma_columns c df) as (Ks & Kl & _ & Ksig).
  rewrite column_at_insert in Ha, Hb.
  rewrite Ks in Ha. rewrite Kl in Hb. cbn in Ha, Hb.
  assert (Hi : i < length (values c)).
  { apply lookup_lt_Some in Ha. by rewrite rolling_mean_length in Ha. }
  destruct (signals_lookup (length (index df))
              (col_gt (rolling_mean default_short_window (values c))
                      (rolling_mean default_long_window (values c)))
              (col_lt (rolling_mean default_short_window (values c))
                      (rolling_mean default_long_window (values c)))
              i (Rltb b a) (Rltb a b)) as (zs & Ezs & Hz).
  { lia. }
  { unfold col_gt. by rewrite lookup_zip_with, Ha, Hb. }
  { unfold col_lt. by rewrite lookup_zip_with, Ha, Hb. }
  rewrite Ezs in Ksig. rewrite (signal_at_insert _ _ _ _ _ Ksig), Hz. cbn.
  eexists. split; [reflexivity|].
  unfold Rltb. destruct (Rlt_dec a b) as [E1|E1], (Rlt_dec b a) as [E2|E2]; cbn;
    split_and!; split; intros; try discriminate; try done; lra.
Qed.

Lemma bollinger_undefined (h : heap) l df c :
  h !! l = Some df → columns df !! "Close" = Some c →
  length (values c) = length (index df) →
  let run := apply_strategy l "Bollinger Bands" h in
  ∀ i, i < length (values c) →
    (S i < default_window →
       ∀ key, key ∈ bollinger_fields → column_at (final run) l key i = Some NaN)
    ∧ (∀ key, key ∈ bollinger_fields → column_at (final run) l key i = Some NaN →
       signal_at (final run) l i = Some Hold).
Proof.
  intros Hl Hc Hlen run i Hi. subst run.
  rewrite (apply_strategy_bollinger_run _ _ _ _ Hl Hc). unfold final. cbn [snd].
  destruct (bollinger_columns c df) as (Ksma & Kstd & Kup & Klo & Kc & Ksig).
  pose proof (lower_band_lookup default_window default_no_of_std _ _ Hi) as Elo.
  pose proof (upper_band_lookup default_window default_no_of_std _ _ Hi) as Eup.
  pose proof (rolling_mean_lookup default_window _ _ Hi) as Em.
  pose proof (rolling_std_lookup default_window _ _ Hi) as Es.
  assert (Hold_nan : std_at default_window (values c) i = NaN →
                     signal_at (<[l:=bollinger_strategy_frame c df]> h) l i = Some Hold).
  { intros Hs. rewrite Hs in Elo, Eup.
    destruct (lookup_lt_is_Some_2 (values c) i Hi) as [x Hx].
    destruct (signals_lookup (length (index df))
                (col_lt (values c) (lower_band default_window default_no_of_std (values c)))
                (col_gt (values c) (upper_band default_window default_no_of_std (values c)))
                i false false) as (zs & Ezs & Hz).
    { lia. }
    { unfold col_lt. rewrite lookup_zip_with, Hx, Elo. cbn.
      destruct (mean_at default_window (values c) i); cbn; by rewrite flt_nan_r. }
    { unfold col_gt, fgt. rewrite lookup_zip_with, Hx, Eup. cbn.
      by destruct (mean_at default_window (values c) i). }
    rewrite Ezs in Ksig. by rewrite (signal_at_insert _ _ _ _ _ Ksig), Hz. }
  split.
  - intros Hearly key Hkey.
    assert (Hw : window default_window (values c) i = None) by by apply window_early.
    unfold mean_at, std_at in *. rewrite Hw in *.
    rewrite column_at_insert. unfold bollinger_fields in Hkey.
    repeat (apply elem_of_cons in Hkey as [->|Hkey]);
      [rewrite Ksma | rewrite Kstd | rewrite Kup | rewrite Klo | by apply elem_of_nil in Hkey];
      cbn; done.
  - intros key Hkey Hnan. apply Hold_nan.
    rewrite column_at_insert in Hnan. unfold bollinger_fields in Hkey.
    destruct (band_defined default_window (values c) i Hi)
      as [(rs & Hw & Hn & Hm & Hs) | [[Hm Hs] | (rs & Hw & Hn & Hm & Hs)]]; try done.
    exfalso. rewrite Hm, Hs in *. cbn in Elo, Eup.
    repeat (apply elem_of_cons in Hkey as [->|Hkey]);
      [rewrite Ksma in Hnan | rewrite Kstd in Hnan | rewrite Kup in Hnan
      | rewrite Klo in Hnan | by apply elem_of_nil in Hkey];
      cbn in Hnan; congruence.
Qed.

Lemma sma_undefined (h : heap) l df c :
  h !! l = Some df → columns df !! "Close" = Some c →
  length (values c) = length (index df) →
  let run := apply_strategy l "SMA Crossover" h in
  ∀ i, i < length (values c) →
    (S i < default_short_window → column_at (final run) l "SMA_Short" i = Some NaN)
    ∧ (S i < default_long_window → column_at (final run) l "SMA_Long" i = Some NaN)
    ∧ (column_at (final run) l "SMA_Short" i = Some NaN
       ∨ column_at (final run) l "SMA_Long" i = Some NaN →
       signal_at (final run) l i = Some Hold).
Proof.
  intros Hl Hc Hlen run i Hi. subst run.
  rewrite (apply_strategy_sma_run _ _ _ _ Hl Hc). unfold final. cbn [snd].
  destruct (sma_columns c df) as (Ks & Kl & _ & Ksig).
  pose proof (rolling_mean_lookup default_short_window _ _ Hi) as Es.
  pose proof (rolling_mean_lookup default_long_window _ _ Hi) as El.
  rewrite !column_at_insert, Ks, Kl. cbn. rewrite Es, El.
  split_and!.
  - intros Hearly. unfold mean_at. by rewrite window_early.
  - intros Hearly. unfold mean_at. by rewrite window_early.
  - intros Hnan.
    destruct (signals_lookup (length (index df))
                (col_gt (rolling_mean default_short_window (values c))
                        (rolling_mean default_long_window (values c)))
                (col_lt (rolling_mean default_short_window (values c))
                        (rolling_mean default_long_window (values c)))
                i false false) as (zs & Ezs & Hz).
    { lia. }
    { unfold col_gt, fgt. rewrite lookup_zip_with, Es, El. cbn.
      destruct Hnan as [Hn|Hn]; injection Hn as ->; by rewrite ?flt_nan_r. }
    { unfold col_lt. rewrite lookup_zip_with, Es, El. cbn.
      destruct Hnan as [Hn|Hn]; injection Hn as ->; by rewrite ?flt_nan_r. }
    rewrite Ezs in Ksig. by rewrite (signal_at_insert _ _ _ _ _ Ksig), Hz.
Qed.

(** C7. Where the rolling indicator is NaN the signal is Hold, for both
    strategies.  The indicator is NaN on the first window-1 bars, and so on
    every bar of a series shorter than the window (one of window-1 bars in
    particular): there all four Bollinger fields are NaN and every signal
    is Hold. *)
Theorem undefined_indicator_is_hold (h : heap) l df c :
  h !! l = Some df → columns df !! "Close" = Some c →
  length (values c) = length (index df) →
  let bb := apply_strategy l "Bollinger Bands" h in
  let sc := apply_strategy l "SMA Crossover" h in
  (∀ i, i < length (values c) →
     (S i < default_window →
        ∀ key, key ∈ bollinger_fields → column_at (final bb) l key i = Some NaN)
     ∧ (∀ key, key ∈ bollinger_fields → column_at (final bb) l key i = Some NaN →
        signal_at (final bb) l i = Some Hold)
     ∧ (S i < default_short_window → column_at (final sc) l "SMA_Short" i = Some NaN)
     ∧ (S i < default_long_window → column_at (final sc) l "SMA_Long" i = Some NaN)
     ∧ (column_at (final sc) l "SMA_Short" i = Some NaN
        ∨ column_at (final sc) l "SMA_Long" i = Some NaN →
        signal_at (final sc) l i = Some Hold))
  ∧ (length (values c) < default_window →
     ∀ i, i < length (values c) →
       (∀ key, key ∈ bollinger_fields → column_at (final bb) l key i = Some NaN)
       ∧ signal_at (final bb) l i = Some Hold).
Proof.
  intros Hl Hc Hlen bb sc. split.
  - intros i Hi.
    destruct (bollinger_undefined h l df c Hl Hc Hlen i Hi) as [B1 B2].
    destruct (sma_undefined h l df c Hl Hc Hlen i Hi) as (S1 & S2 & S3).
    by split_and!.
  - intros Hshort i Hi.
    destruct (bollinger_undefined h l df c Hl Hc Hlen i Hi) as [B1 B2].
    assert (Hearly : S i < default_window) by lia.
    split; [by apply B1|].
    apply (B2 "SMA"); [|apply B1; [done|]]; unfold bollinger_fields; set_solver.
Qed.

Lemma bollinger_frame_columns w k c df :
  let f := bollinger_frame w k c df in
  columns f !! "SMA" = Some (FloatCol (rolling_mean w (values c)))
  ∧ columns f !! "STD" = Some (FloatCol (rolling_std w (values c)))
  ∧ columns f !! "Upper Band" = Some (FloatCol (upper_band w k (values c)))
  ∧ columns f !! "Lower Band" = Some (FloatCol (lower_band w k (values c))).
Proof. cbn zeta. split_and!; rewrite bollinger_frame_column; by pick_column. Qed.

(** C8. The Bollinger computation with its defaults (window 20, k = 2).  At
    every bar where SMA and STD are numbers, SMA is the mean of the 20
    closes ending at the bar, STD is their sample standard deviation (N-1
    denominator), upper = sma + 2 std, lower = sma - 2 std, so
    lower <= upper, with upper = lower exactly when std = 0, and then both
    equal sma.  In a series of at least 20 bars such bars exist: every bar
    from the 20th on whose window holds finite closes. *)
Theorem bollinger_band_identity (h : heap) l df c :
  h !! l = Some df → columns df !! "Close" = Some c →
  let run := calculate_bollinger_bands l default_window default_no_of_std h in
  result run = inr l
  ∧ (∀ i m s,
       column_at (final run) l "SMA" i = Some (Num m) →
       column_at (final run) l "STD" i = Some (Num s) →
       (∃ rs, length rs = default_window
              ∧ take default_window (drop (S i - default_window) (values c)) = Num <$> rs
              ∧ m = (Rsum rs / INR default_window)%R
              ∧ s = sqrt (Rsum ((λ r, (r - m) * (r - m))%R <$> rs)
                          / (INR default_window - 1))%R)
       ∧ ∃ up lo,
           column_at (final run) l "Upper Band" i = Some (Num up)
           ∧ column_at (final run) l "Lower Band" i = Some (Num lo)
           ∧ up = (m + 2 * s)%R ∧ lo = (m - 2 * s)%R
           ∧ (lo <= up)%R
           ∧ (up = lo ↔ s = 0%R)
           ∧ (s = 0%R → up = m ∧ lo = m))
  ∧ (∀ i, default_window ≤ S i → i < length (values c) →
       (∀ j, S i - default_window ≤ j → j ≤ i → ∃ r, values c !! j = Some (Num r)) →
       ∃ m s, column_at (final run) l "SMA" i = Some (Num m)
              ∧ column_at (final run) l "STD" i = Some (Num s)).
Proof.
  intros Hl Hc run. subst run.
  rewrite (calculate_bollinger_bands_run _ _ _ _ _ _ Hl Hc). unfold result, final. cbn [fst snd].
  destruct (bollinger_frame_columns default_window default_no_of_std c df)
    as (Ksma & Kstd & Kup & Klo).
  split; [done|]. split.
  - intros i m s Hm Hs.
    rewrite !column_at_insert in *. rewrite Ksma in Hm. rewrite Kstd in Hs.
    rewrite Kup, Klo. cbn in Hm, Hs |- *.
    assert (Hi : i < length (values c)).
    { apply lookup_lt_Some in Hm. by rewrite rolling_mean_length in Hm. }
    rewrite rolling_mean_lookup in Hm by done. rewrite rolling_std_lookup in Hs by done.
    rewrite upper_band_lookup, lower_band_lookup by done.
    injection Hm as Hm. injection Hs as Hs. rewrite Hm, Hs.
    unfold mean_at, std_at in Hm, Hs.
    destruct (window default_window (values c) i) as [rs|] eqn:Hw; [|discriminate].
    destruct (window_Some _ _ _ _ Hw Hi) as (_ & _ & Hn & Htake & _).
    destruct (Nat.ltb_spec 1 (length rs)); [|discriminate].
    injection Hm as Hm. injection Hs as Hs.
    assert (Hpos : (0 <= s)%R) by (rewrite <- Hs; apply sample_std_nonneg).
    split.
    + exists rs. split_and!; try done.
      * rewrite <- Hm. unfold mean. by rewrite Hn.
      * rewrite <- Hs, <- Hm. unfold sample_std, sample_var. by rewrite Hn.
    + cbn. change (IZR default_no_of_std) with 2%R.
      eexists _, _. split_and!; try reflexivity; try lra.
  - intros i Hw Hi Hfin.
    destruct (window_full default_window (values c) i) as [rs Hrs]; try done.
    { unfold default_window. lia. }
    destruct (window_Some _ _ _ _ Hrs Hi) as (_ & _ & Hn & _).
    rewrite !column_at_insert, Ksma, Kstd. cbn.
    rewrite rolling_mean_lookup, rolling_std_lookup by done.
    unfold mean_at, std_at. rewrite Hrs.
    destruct (Nat.ltb_spec 1 (length rs)); [eauto|].
    rewrite Hn in *. unfold default_window in *. lia.
Qed.

(** C10. A strategy name other than "Bollinger Bands" and "SMA Crossover":
    [apply_strategy] returns the table it was given and leaves the heap as
    it was, so no indicator column and no Signal column is added, and
    nothing is raised. *)
Theorem unrecognized_strategy_is_noop (h : heap) l strategy :
  strategy ≠ "Bollinger Bands" → strategy ≠ "SMA Crossover" →
  apply_strategy l strategy h = (inr l, h).
Proof.
  intros H1 H2. unfold apply_strategy.
  destruct (String.eqb_spec strategy "Bollinger Bands"); [done|].
  destruct (String.eqb_spec strategy "SMA Crossover"); [done|].
  reflexivity.
Qed.

Lemma growth_column (h : heap) l s amount style c df i :
  column_at (<[l := growth_frame s amount style c df]> h) l (style +:+ " Growth") i
  = scaled s amount (multiplier_of style) <$> values c !! i.
Proof.
  rewrite column_at_insert. unfold growth_frame. rewrite lookup_set_column_eq. cbn.
  by rewrite list_lookup_fmap.
Qed.

(** C4. For a series whose first close [s0] is positive and for every
    style, [calculate_investment_growth] returns, and the trajectory it
    stores has at each bar the value (close / s0) * principal * multiplier,
    with [s0] the close of the first bar of the whole table (the function
    takes no display window).  So the value at the first bar is
    principal * multiplier, and the returned final growth is the value at
    the last bar. *)
Theorem growth_trajectory_formula (h : heap) l df c amount style s0 :
  h !! l = Some df → columns df !! "Close" = Some c →
  head (values c) = Some (Num s0) → (0 < s0)%R →
  let run := calculate_investment_growth l amount style h in
  let m := multiplier_of style in
  let key := style +:+ " Growth" in
  ∃ g roi,
    result run = inr (g, roi)
    ∧ (∀ i x, values c !! i = Some x →
         column_at (final run) l key i = Some (scaled (Num s0) amount m x))
    ∧ (∀ i r, values c !! i = Some (Num r) →
         column_at (final run) l key i = Some (Num (r / s0 * amount * m)))
    ∧ column_at (final run) l key 0 = Some (Num (amount * m))
    ∧ column_at (final run) l key (length (values c) - 1) = Some g.
Proof.
  intros Hl Hc Hs Hpos run m key. subst run m key.
  destruct (head_last_nonempty (values c)) as (s & e & Hs' & He).
  { intros Hnil. by rewrite Hnil in Hs. }
  rewrite Hs in Hs'. injection Hs' as <-.
  rewrite (calculate_investment_growth_run _ _ _ _ amount style _ _ Hl Hc Hs He).
  unfold result, final. cbn [fst snd].
  eexists _, _. split; [reflexivity|].
  assert (Hne : s0 ≠ 0%R) by lra.
  split_and!.
  - intros i x Hx. by rewrite growth_column, Hx.
  - intros i r Hr. rewrite growth_column, Hr. cbn [fmap option_fmap option_map].
    by rewrite scaled_num.
  - rewrite growth_column. rewrite <- head_lookup, Hs. cbn [fmap option_fmap option_map].
    rewrite scaled_num by done. do 2 f_equal. by field.
  - rewrite growth_column. rewrite last_lookup in He.
    replace (length (values c) - 1) with (Nat.pred (length (values c))) by lia.
    by rewrite He.
Qed.

(** C9, as amended.  For every non-empty series, principal and style the call
    returns, and in exact arithmetic the ROI it returns,
    ((growth - principal) / principal) * 100, is the value of
    (growth / principal - 1) * 100; for a finite growth and a non-zero
    principal that is the real number (growth / principal - 1) * 100.  A
    style outside the three known names gets the multiplier 1. *)
Theorem roi_invariant (h : heap) l df c amount style :
  h !! l = Some df → columns df !! "Close" = Some c → values c ≠ [] →
  let run := calculate_investment_growth l amount style h in
  ∃ g roi,
    result run = inr (g, roi)
    ∧ roi = fmul (fsub (fdiv g (Num amount)) (Num 1)) (Num 100)
    ∧ (∀ x, g = Num x → amount ≠ 0%R → roi = Num ((x / amount - 1) * 100))
    ∧ (∃ s e, head (values c) = Some s ∧ last (values c) = Some e
              ∧ g = scaled s amount (multiplier_of style) e)
    ∧ (style ≠ "Aggressive" → style ≠ "Moderate" → style ≠ "Passive" →
       multiplier_of style = 1%R).
Proof.
  intros Hl Hc Hne run. subst run.
  destruct (head_last_nonempty (values c) Hne) as (s & e & Hs & He).
  rewrite (calculate_investment_growth_run _ _ _ _ amount style _ _ Hl Hc Hs He).
  unfold result. cbn [fst].
  eexists _, _. split; [reflexivity|]. split_and!.
  - apply roi_of_formula.
  - intros x Hx Ha. rewrite roi_of_formula, Hx. cbn.
    rewrite !Reqb_false by done. reflexivity.
  - eauto.
  - intros H1 H2 H3.
    destruct (multiplier_of_cases style) as [[? _]|[[? _]|[[? _]|(_ & _ & _ & ?)]]]; done.
Qed.

(** C1, as amended.  With a positive first close the three final growths
    are Moderate = (end / start) * principal, Aggressive = 1.5 * Moderate and
    Passive = 0.75 * Moderate.  So for a non-negative last close and a
    non-negative principal, Aggressive >= Moderate >= Passive, whether the
    price rose or fell; the order is strict for positive values and is not
    reversed by a falling price. *)
Theorem style_ordering (h : heap) l df c amount s0 e0 :
  h !! l = Some df → columns df !! "Close" = Some c →
  head (values c) = Some (Num s0) → last (values c) = Some (Num e0) →
  (0 < s0)%R →
  ∃ a m p roiA roiM roiP,
    result (calculate_investment_growth l amount "Aggressive" h) = inr (Num a, roiA)
    ∧ result (calculate_investment_growth l amount "Moderate" h) = inr (Num m, roiM)
    ∧ result (calculate_investment_growth l amount "Passive" h) = inr (Num p, roiP)
    ∧ m = (e0 / s0 * amount)%R ∧ a = (3 / 2 * m)%R ∧ p = (3 / 4 * m)%R
    ∧ ((0 <= e0)%R → (0 <= amount)%R → (p <= m)%R ∧ (m <= a)%R)
    ∧ ((0 < e0)%R → (0 < amount)%R → (p < m)%R ∧ (m < a)%R).
Proof.
  intros Hl Hc Hs He Hpos.
  rewrite !(calculate_investment_growth_run _ _ _ _ amount _ _ _ Hl Hc Hs He).
  unfold result. cbn [fst].
  rewrite multiplier_aggressive, multiplier_moderate, multiplier_passive.
  rewrite !scaled_num by lra.
  eexists _, _, _, _, _, _. split_and!; try reflexivity; try lra.
  - intros H1 H2.
    assert (0 < / s0)%R by (apply Rinv_0_lt_compat; lra).
    assert (0 <= e0 / s0 * amount)%R.
    { apply Rmult_le_pos; [|done]. unfold Rdiv. apply Rmult_le_pos; lra. }
    lra.
  - intros H1 H2.
    assert (0 < / s0)%R by (apply Rinv_0_lt_compat; lra).
    assert (0 < e0 / s0 * amount)%R.
    { apply Rmult_lt_0_compat; [|done]. unfold Rdiv. apply Rmult_lt_0_compat; lra. }
    lra.
Qed.

(** C2, as amended.  [calculate_investment_growth] checks nothing about its
    input.  It fails on an empty series only, with the IndexError of
    [iloc[0]].  On every series of at least one bar it returns a result: with
    a single bar of non-zero close the final growth is
    principal * multiplier, and with a first close of zero the division
    gives an infinity or NaN, returned without an error. *)
Theorem growth_failure_modes (h : heap) l df c amount style :
  h !! l = Some df → columns df !! "Close" = Some c →
  let run := calculate_investment_growth l amount style h in
  (values c = [] → run = (inl IndexError, h))
  ∧ (values c ≠ [] → ∃ g roi, result run = inr (g, roi))
  ∧ (∀ x, values c = [Num x] → x ≠ 0%R →
       ∃ roi, result run = inr (Num (amount * multiplier_of style), roi))
  ∧ (∀ e, head (values c) = Some (Num 0) → last (values c) = Some e →
       ∃ g roi, result run = inr (g, roi) ∧ finite g = None).
Proof.
  intros Hl Hc run. subst run. split_and!.
  - intros Hnil. by apply (calculate_investment_growth_empty _ _ df c).
  - intros Hne. destruct (head_last_nonempty (values c) Hne) as (s & e & Hs & He).
    rewrite (calculate_investment_growth_run _ _ _ _ amount style _ _ Hl Hc Hs He).
    by eexists _, _.
  - intros x Hx Hne.
    rewrite (calculate_investment_growth_run _ _ _ _ amount style (Num x) (Num x) Hl Hc)
      by (by rewrite Hx).
    unfold result. cbn [fst]. rewrite scaled_num by done.
    eexists. do 3 f_equal. by field.
  - intros e Hs He.
    rewrite (calculate_investment_growth_run _ _ _ _ amount style _ _ Hl Hc Hs He).
    unfold result. cbn [fst]. eexists _, _. split; [reflexivity|].
    pose proof (multiplier_of_pos style) as Hm.
    assert (Hm0 : Reqb (multiplier_of style) 0 = false) by (apply Reqb_false; lra).
    unfold scaled. destruct e as [x|s|]; cbn; rewrite ?(Reqb_true 0 0) by done.
    + destruct (Reqb x 0); cbn; [done|].
      destruct (Reqb amount 0); cbn; [done|]. by rewrite Hm0.
    + destruct (Reqb amount 0); cbn; [done|]. by rewrite Hm0.
    + done.
Qed.

(** ** Writes into a table, and the sample inputs *)

Module Effects.
Local Open Scope nat_scope.

Lemma heap_of_lookup df : heap_of df !! 0 = Some df.
Proof. apply lookup_insert_eq. Qed.

Lemma bars_close cs : columns (bars cs) !! "Close" = Some (FloatCol (Num <$> cs)).
Proof. unfold bars. cbn. by rewrite !lookup_insert_ne, lookup_insert_eq by discriminate. Qed.

Lemma bars_length cs :
  length (values (FloatCol (Num <$> cs))) = length (index (bars cs)).
Proof. cbn. by rewrite !length_fmap, length_seq. Qed.

Lemma bars_no_column cs key :
  key ∉ ohlc_fields → columns (bars cs) !! key = None.
Proof.
  intros Hkey. unfold bars. cbn. unfold ohlc_fields in Hkey.
  rewrite !lookup_insert_ne, lookup_empty; [done|..];
    intros Heq; apply Hkey; rewrite <- Heq; set_solver.
Qed.

Lemma insert_frame_dom (h : heap) l df df' :
  h !! l = Some df → dom (<[l := df']> h) = dom h.
Proof.
  intros Hl. rewrite dom_insert_L. apply elem_of_dom_2 in Hl.
  apply subseteq_union_1_L. by apply singleton_subseteq_l.
Qed.

Lemma column_of_insert (h : heap) l df key :
  column_of (<[l := df]> h) l key = columns df !! key.
Proof. unfold column_of. by rewrite lookup_insert_eq. Qed.

Lemma index_of_insert (h : heap) l df : index_of (<[l := df]> h) l = Some (index df).
Proof. unfold index_of. by rewrite lookup_insert_eq. Qed.

(** What a write of the columns [fields] into the table at [l] changes. *)
Lemma write_effect (h : heap) l df df' (fields : list string) :
  h !! l = Some df →
  index df' = index df →
  (∀ key, key ∉ fields → columns df' !! key = columns df !! key) →
  (∀ key, key ∈ fields → is_Some (columns df' !! key)) →
  (∀ key, key ∈ ohlc_fields → key ∉ fields) →
  let h' := <[l := df']> h in
  index_of h' l = Some (index df)
  ∧ (∀ key, key ∈ ohlc_fields → column_of h' l key = column_of h l key)
  ∧ (∀ key, key ∉ fields → column_of h' l key = column_of h l key)
  ∧ (∀ key, key ∈ fields → is_Some (column_of h' l key))
  ∧ (∀ l', l' ≠ l → h' !! l' = h !! l')
  ∧ dom h' = dom h.
Proof.
  intros Hl Hidx Hkeep Hnew Hohlc h'. subst h'.
  assert (Hcol : ∀ key, column_of h l key = columns df !! key).
  { intros key. unfold column_of. by rewrite Hl. }
  split; [by rewrite index_of_insert, Hidx|].
  split; [intros key Hkey; rewrite column_of_insert, Hcol; by apply Hkeep, Hohlc|].
  split; [intros key Hkey; rewrite column_of_insert, Hcol; by apply Hkeep|].
  split; [intros key Hkey; rewrite column_of_insert; by apply Hnew|].
  split; [intros l' Hne; by rewrite lookup_insert_ne|].
  by eapply insert_frame_dom.
Qed.

Lemma ohlc_not_bollinger key : key ∈ ohlc_fields → key ∉ bollinger_fields.
Proof.
  unfold ohlc_fields, bollinger_fields. intros Hkey Hin.
  repeat (apply elem_of_cons in Hkey as [->|Hkey]); [| | | |by apply elem_of_nil in Hkey];
    repeat (apply elem_of_cons in Hin as [?|Hin]); try discriminate;
    by apply elem_of_nil in Hin.
Qed.

Lemma ohlc_not_sma key : key ∈ ohlc_fields → key ∉ sma_fields.
Proof.
  unfold ohlc_fields, sma_fields. intros Hkey Hin.
  repeat (apply elem_of_cons in Hkey as [->|Hkey]); [| | | |by apply elem_of_nil in Hkey];
    repeat (apply elem_of_cons in Hin as [?|Hin]); try discriminate;
    by apply elem_of_nil in Hin.
Qed.

Lemma bollinger_frame_keeps w k c df key :
  key ∉ bollinger_fields → columns (bollinger_frame w k c df) !! key = columns df !! key.
Proof.
  intros Hkey. rewrite bollinger_frame_column. unfold bollinger_fields in Hkey.
  repeat case_decide; try done; exfalso; apply Hkey; set_solver.
Qed.

Lemma bollinger_frame_writes w k c df key :
  key ∈ bollinger_fields → is_Some (columns (bollinger_frame w k c df) !! key).
Proof.
  intros Hkey. rewrite bollinger_frame_column. unfold bollinger_fields in Hkey.
  repeat (apply elem_of_cons in Hkey as [->|Hkey]); [| | | |by apply elem_of_nil in Hkey];
    pick_column; eauto.
Qed.

Lemma sma_frame_keeps ws wl c df key :
  key ∉ sma_fields → columns (sma_frame ws wl c df) !! key = columns df !! key.
Proof.
  intros Hkey. rewrite sma_frame_column. unfold sma_fields in Hkey.
  repeat case_decide; try done; exfalso; apply Hkey; set_solver.
Qed.

Lemma sma_frame_writes ws wl c df key :
  key ∈ sma_fields → is_Some (columns (sma_frame ws wl c df) !! key).
Proof.
  intros Hkey. rewrite sma_frame_column. unfold sma_fields in Hkey.
  repeat (apply elem_of_cons in Hkey as [->|Hkey]); [| |by apply elem_of_nil in Hkey];
    pick_column; eauto.
Qed.

End Effects.
Export Effects.

(** C3, as amended.  The indicator computations leave the timestamps and the
    open, high, low and close columns of the input as they were, and every
    other column but the ones they compute.  They store their output in the
    input table itself, as the columns SMA, STD, Upper Band and Lower Band
    (resp. SMA_Short and SMA_Long), and return that same table; no other
    object of the heap changes and none is created. *)
Theorem indicators_keep_prices (h : heap) l df c w k ws wl :
  h !! l = Some df → columns df !! "Close" = Some c →
  let bb := calculate_bollinger_bands l w k h in
  let sm := calculate_sma l ws wl h in
  (result bb = inr l
   ∧ index_of (final bb) l = Some (index df)
   ∧ (∀ key, key ∈ ohlc_fields → column_of (final bb) l key = column_of h l key)
   ∧ (∀ key, key ∉ bollinger_fields → column_of (final bb) l key = column_of h l key)
   ∧ (∀ key, key ∈ bollinger_fields → is_Some (column_of (final bb) l key))
   ∧ (∀ l', l' ≠ l → final bb !! l' = h !! l')
   ∧ dom (final bb) = dom h)
  ∧ (result sm = inr l
     ∧ index_of (final sm) l = Some (index df)
     ∧ (∀ key, key ∈ ohlc_fields → column_of (final sm) l key = column_of h l key)
     ∧ (∀ key, key ∉ sma_fields → column_of (final sm) l key = column_of h l key)
     ∧ (∀ key, key ∈ sma_fields → is_Some (column_of (final sm) l key))
     ∧ (∀ l', l' ≠ l → final sm !! l' = h !! l')
     ∧ dom (final sm) = dom h).
Proof.
  intros Hl Hc bb sm. subst bb sm.
  rewrite (calculate_bollinger_bands_run _ _ _ _ w k Hl Hc).
  rewrite (calculate_sma_run _ _ _ _ ws wl Hl Hc).
  unfold result, final. cbn [fst snd].
  split; (split; [done|]).
  - apply (write_effect h l df _ bollinger_fields Hl); [done|..].
    + apply bollinger_frame_keeps.
    + apply bollinger_frame_writes.
    + apply ohlc_not_bollinger.
  - apply (write_effect h l df _ sma_fields Hl); [done|..].
    + apply sma_frame_keeps.
    + apply sma_frame_writes.
    + apply ohlc_not_sma.
Qed.

Lemma growth_of_run (h : heap) l df c amount style s e :
  h !! l = Some df → columns df !! "Close" = Some c →
  head (values c) = Some s → last (values c) = Some e →
  growth_of (calculate_investment_growth l amount style h)
  = Some (scaled s amount (multiplier_of style) e).
Proof.
  intros Hl Hc Hs He. unfold growth_of.
  by rewrite (calculate_investment_growth_run _ _ _ _ amount style _ _ Hl Hc Hs He).
Qed.

Lemma sample_growth cs amount style s e :
  head cs = Some s → last cs = Some e → s ≠ 0%R →
  growth_of (calculate_investment_growth 0 amount style (heap_of (bars cs)))
  = Some (Num (e / s * amount * multiplier_of style)).
Proof.
  intros Hs He Hne.
  rewrite (growth_of_run _ _ _ _ amount style (Num s) (Num e)
             (heap_of_lookup _) (bars_close cs)).
  - by rewrite scaled_num.
  - destruct cs as [|x cs]; [discriminate|]. by injection Hs as ->.
  - cbn [values]. by rewrite fmap_last, He.
Qed.

Lemma negative_nonneg x : (0 <= x)%R → negative x = false.
Proof. intros H. unfold negative, Rltb. destruct (Rlt_dec x 0); [lra|done]. Qed.

Ltac float_eval :=
  repeat first
    [ rewrite Reqb_true by lra
    | rewrite Reqb_false by lra
    | rewrite negative_nonneg by lra
    | progress cbn ].

(** C1, the claim as stated fails.  On the falling series 100, 50 with a
    principal of 10000 the final growths are 7500, 5000 and 3750: the last
    close is below the first, and still Passive is below Moderate, which is
    below Aggressive. *)
Lemma style_order_kept_on_falling_prices :
  let h := heap_of (bars falling) in
  growth_of (calculate_investment_growth 0 10000 "Aggressive" h) = Some (Num 7500)
  ∧ growth_of (calculate_investment_growth 0 10000 "Moderate" h) = Some (Num 5000)
  ∧ growth_of (calculate_investment_growth 0 10000 "Passive" h) = Some (Num 3750)
  ∧ head falling = Some 100%R ∧ last falling = Some 50%R ∧ (50 < 100)%R
  ∧ ¬ (fge (Num 3750) (Num 5000) ∧ fge (Num 5000) (Num 7500)).
Proof.
  cbn zeta.
  rewrite !(sample_growth falling 10000 _ 100 50) by (try reflexivity; lra).
  rewrite multiplier_aggressive, multiplier_moderate, multiplier_passive.
  split_and!; try reflexivity; try (do 2 f_equal; lra); try lra.
  cbn. lra.
Qed.

(** C2, the claim as stated fails.  On a series of a single bar the call
    returns the final growth 10000 and raises nothing; on a series whose
    first close is 0 it returns +inf as growth and as ROI. *)
Lemma growth_without_validation :
  growth_of (calculate_investment_growth 0 10000 "Moderate" (heap_of (bars single)))
  = Some (Num 10000)
  ∧ growth_of (calculate_investment_growth 0 10000 "Moderate" (heap_of (bars from_zero)))
    = Some (Inf false)
  ∧ roi_percent_of (calculate_investment_growth 0 10000 "Moderate" (heap_of (bars from_zero)))
    = Some (Inf false).
Proof.
  split_and!.
  - rewrite (sample_growth single 10000 _ 100 100) by (try reflexivity; lra).
    rewrite multiplier_moderate. do 2 f_equal. lra.
  - rewrite (growth_of_run _ _ _ _ 10000 "Moderate" (Num 0) (Num 5)
               (heap_of_lookup _) (bars_close from_zero)) by reflexivity.
    rewrite multiplier_moderate. unfold scaled. by float_eval.
  - unfold roi_percent_of.
    rewrite (calculate_investment_growth_run _ _ _ _ 10000 "Moderate" (Num 0) (Num 5)
               (heap_of_lookup _) (bars_close from_zero)) by reflexivity.
    rewrite multiplier_moderate. unfold scaled, roi_of. by float_eval.
Qed.

(** C3, the claim as stated fails.  [calculate_bollinger_bands] returns the
    location it was given, the heap holds no other object afterwards, and
    the input table, which had no SMA column, has one: the output is
    written into the input table. *)
Lemma indicators_write_into_input :
  let h := heap_of (bars rising) in
  let run := calculate_bollinger_bands 0 default_window default_no_of_std h in
  result run = inr 0
  ∧ dom (final run) = dom h
  ∧ column_of h 0 "SMA" = None
  ∧ is_Some (column_of (final run) 0 "SMA")
  ∧ final run !! 0 ≠ h !! 0.
Proof.
  cbn zeta.
  rewrite (calculate_bollinger_bands_run _ _ _ _ default_window default_no_of_std
             (heap_of_lookup _) (bars_close rising)).
  unfold result, final. cbn [fst snd].
  assert (Hin : "SMA" ∈ bollinger_fields) by (unfold bollinger_fields; constructor).
  assert (Hno : column_of (heap_of (bars rising)) 0 "SMA" = None).
  { unfold column_of. rewrite heap_of_lookup.
    change (columns (bars rising) !! "SMA" = None).
    apply bars_no_column. intros Hohlc. by apply ohlc_not_bollinger in Hohlc. }
  assert (Hyes : is_Some (column_of (<[0 := bollinger_frame default_window default_no_of_std
             (FloatCol (Num <$> rising)) (bars rising)]> (heap_of (bars rising))) 0 "SMA")).
  { rewrite column_of_insert. by apply bollinger_frame_writes. }
  split; [done|]. split; [by eapply insert_frame_dom, heap_of_lookup|].
  split; [done|]. split; [done|].
  intros Heq.
  assert (Hsame : column_of (<[0 := bollinger_frame default_window default_no_of_std
             (FloatCol (Num <$> rising)) (bars rising)]> (heap_of (bars rising))) 0 "SMA"
           = column_of (heap_of (bars rising)) 0 "SMA").
  { unfold column_of. f_equal. exact Heq. }
  rewrite Hsame, Hno in Hyes. by destruct Hyes.
Qed.

Module Rounding.
Import PrimFloat.

(** C9, the claim as stated fails.  In binary64, on the closes 100, 110, 121
    with a principal of 10000 in the Moderate style, the call returns the
    final value 12100 and the ROI 21, while (growth / principal - 1) * 100
    evaluates to 20.999999999999996 (0x1.4ffffffffffffp+4): the two are not
    the same float. *)
Lemma roi_is_not_the_formula_in_binary64 :
  ∃ traj,
    Binary64.calculate_investment_growth64 [100; 110; 121]%float 10000%float "Moderate"
    = Some (12100%float, 21%float, traj)
    ∧ Binary64.roi_formula64 12100 10000 = 0x1.4ffffffffffffp+4%float
    ∧ PrimFloat.eqb 21 (Binary64.roi_formula64 12100 10000) = false.
Proof.
  eexists. split; [vm_compute; reflexivity|]. split; vm_compute; reflexivity.
Qed.

End Rounding.

(** ** Flat series: every close the same *)

Module Flat.
Local Open Scope nat_scope.

Lemma Rsum_replicate n x : Rsum (replicate n x) = (INR n * x)%R.
Proof.
  induction n as [|n IH]; [cbn; lra|].
  rewrite S_INR. cbn [replicate Rsum foldr]. fold (Rsum (replicate n x)). rewrite IH. lra.
Qed.

Lemma mean_replicate n x : 0 < n → mean (replicate n x) = x.
Proof.
  intros Hn. unfold mean. rewrite Rsum_replicate, length_replicate.
  field. apply not_0_INR. lia.
Qed.

Lemma Rsum_zeros n x :
  Rsum ((λ r, (r - x) * (r - x))%R <$> replicate n x) = 0%R.
Proof.
  induction n as [|n IH]; [done|].
  cbn [replicate fmap list_fmap Rsum foldr]. fold (Rsum ((λ r, (r - x) * (r - x))%R <$> replicate n x)).
  rewrite IH. lra.
Qed.

Lemma sample_std_replicate n x : 0 < n → sample_std (replicate n x) = 0%R.
Proof.
  intros Hn. unfold sample_std, sample_var.
  rewrite mean_replicate by done. rewrite Rsum_zeros.
  unfold Rdiv. rewrite Rmult_0_l. apply sqrt_0.
Qed.

Lemma window_flat w n x i :
  0 < w → w ≤ S i → i < n →
  window w (Num <$> replicate n x) i = Some (replicate w x).
Proof.
  intros H0 Hw Hi. unfold window.
  destruct (Nat.ltb_spec 0 w); [|lia].
  destruct (Nat.leb_spec w (S i)); [|lia]. cbn [andb].
  apply finites_Some.
  rewrite <- fmap_drop, <- fmap_take, drop_replicate, take_replicate.
  do 2 f_equal. lia.
Qed.

Lemma mean_at_flat w n x i :
  0 < w → w ≤ S i → i < n → mean_at w (Num <$> replicate n x) i = Num x.
Proof.
  intros. unfold mean_at. rewrite window_flat by done. by rewrite mean_replicate.
Qed.

Lemma std_at_flat w n x i :
  1 < w → w ≤ S i → i < n → std_at w (Num <$> replicate n x) i = Num 0.
Proof.
  intros. unfold std_at. rewrite window_flat by lia. rewrite length_replicate.
  destruct (Nat.ltb_spec 1 w); [|lia]. rewrite sample_std_replicate by lia. done.
Qed.

End Flat.
Export Flat.

(** ** The properties on the sample inputs *)

(** The scenario of three bars 100, 110, 121 with a principal of 10000 in the
    Moderate style: final value 12100 and a return of 21 percent. *)
Example rising_moderate :
  let run := calculate_investment_growth 0 10000 "Moderate" (heap_of (bars rising)) in
  growth_of run = Some (Num 12100) ∧ roi_percent_of run = Some (Num 21).
Proof.
  cbn zeta. unfold growth_of, roi_percent_of.
  rewrite (calculate_investment_growth_run _ _ _ _ 10000 "Moderate" (Num 100) (Num 121)
             (heap_of_lookup _) (bars_close rising)) by reflexivity.
  rewrite multiplier_moderate. unfold roi_of. rewrite scaled_num by lra. cbn.
  rewrite (Reqb_false 10000 0) by lra.
  split; cbn; do 2 f_equal; lra.
Qed.

(** The scenario of 25 closes of 50 under the Bollinger Bands strategy: at the
    last bar both bands equal the close, 50. *)
Lemma flat_band_columns n i :
  default_window ≤ S i → i < n →
  let run := apply_strategy 0 "Bollinger Bands" (heap_of (bars (replicate n 50%R))) in
  column_at (final run) 0 "Lower Band" i = Some (Num 50)
  ∧ column_at (final run) 0 "Upper Band" i = Some (Num 50)
  ∧ column_at (final run) 0 "Close" i = Some (Num 50).
Proof.
  intros Hw Hi. cbn zeta.
  rewrite (apply_strategy_bollinger_run _ _ _ _ (heap_of_lookup _) (bars_close _)).
  unfold final. cbn [snd].
  destruct (bollinger_columns (FloatCol (Num <$> replicate n 50%R)) (bars (replicate n 50%R)))
    as (_ & _ & Kup & Klo & Kc & _).
  rewrite !column_at_insert, Kup, Klo, Kc, bars_close. cbn [mbind option_bind values].
  assert (Hlen : i < length (Num <$> replicate n 50%R))
    by (by rewrite length_fmap, length_replicate).
  rewrite lower_band_lookup, upper_band_lookup by done.
  unfold default_window in *.
  rewrite mean_at_flat, std_at_flat by lia. cbn.
  split_and!.
  - do 2 f_equal. lra.
  - do 2 f_equal. lra.
  - rewrite list_lookup_fmap, lookup_replicate_2 by done. done.
Qed.

(** The rule of C5 on 25 closes of 50: at bar 24 both bands are 50, as the
    close, and the signal is Hold. *)
Lemma bollinger_signal_rule_witness :
  signal_at (final (apply_strategy 0 "Bollinger Bands" (heap_of (bars flat25)))) 0 24
  = Some Hold.
Proof.
  destruct (bollinger_signal_rule (heap_of (bars flat25)) 0 (bars flat25) _
              (heap_of_lookup _) (bars_close _) (bars_length _)) as [_ Hrule].
  destruct (flat_band_columns 25 24) as (Hlo & Hup & Hc);
    [unfold default_window; lia | lia |].
  destruct (Hrule 24 50%R 50%R Hlo Hup) as (x & s & Hx & Hs & _ & _ & _ & Hhold).
  unfold flat25 in Hx. rewrite Hc in Hx. injection Hx as <-.
  rewrite Hs. f_equal. apply Hhold. by left.
Defined.

Lemma flat_sma_columns n i :
  default_long_window ≤ S i → i < n →
  let run := apply_strategy 0 "SMA Crossover" (heap_of (bars (replicate n 50%R))) in
  column_at (final run) 0 "SMA_Short" i = Some (Num 50)
  ∧ column_at (final run) 0 "SMA_Long" i = Some (Num 50).
Proof.
  intros Hw Hi. cbn zeta.
  rewrite (apply_strategy_sma_run _ _ _ _ (heap_of_lookup _) (bars_close _)).
  unfold final. cbn [snd].
  destruct (sma_columns (FloatCol (Num <$> replicate n 50%R)) (bars (replicate n 50%R)))
    as (Ks & Kl & _ & _).
  rewrite !column_at_insert, Ks, Kl. cbn [mbind option_bind values].
  assert (Hlen : i < length (Num <$> replicate n 50%R))
    by (by rewrite length_fmap, length_replicate).
  rewrite !rolling_mean_lookup by done.
  unfold default_long_window, default_short_window in *.
  by rewrite !mean_at_flat by lia.
Qed.

Lemma flat_indicator_columns n i :
  default_window ≤ S i → i < n →
  let run := calculate_bollinger_bands 0 default_window default_no_of_std
               (heap_of (bars (replicate n 50%R))) in
  column_at (final run) 0 "SMA" i = Some (Num 50)
  ∧ column_at (final run) 0 "STD" i = Some (Num 0).
Proof.
  intros Hw Hi. cbn zeta.
  rewrite (calculate_bollinger_bands_run _ _ _ _ _ _ (heap_of_lookup _) (bars_close _)).
  unfold final. cbn [snd].
  destruct (bollinger_frame_columns default_window default_no_of_std
              (FloatCol (Num <$> replicate n 50%R)) (bars (replicate n 50%R)))
    as (Ksma & Kstd & _ & _).
  rewrite !column_at_insert, Ksma, Kstd. cbn [mbind option_bind values].
  assert (Hlen : i < length (Num <$> replicate n 50%R))
    by (by rewrite length_fmap, length_replicate).
  rewrite rolling_mean_lookup, rolling_std_lookup by done.
  unfold default_window in *.
  by rewrite mean_at_flat, std_at_flat by lia.
Qed.

(** The rule of C6 on 200 closes of 50: at bar 199 the two averages are
    equal and the signal is Hold. *)
Lemma sma_crossover_signal_rule_witness :
  signal_at (final (apply_strategy 0 "SMA Crossover" (heap_of (bars flat200)))) 0 199
  = Some Hold.
Proof.
  destruct (sma_crossover_signal_rule (heap_of (bars flat200)) 0 (bars flat200) _
              (heap_of_lookup _) (bars_close _) (bars_length _)) as [_ Hrule].
  destruct (flat_sma_columns 200 199) as (Hs & Hl);
    [unfold default_long_window; lia | lia |].
  destruct (Hrule 199 50%R 50%R Hs Hl) as (s & Hsig & _ & _ & Hhold).
  rewrite Hsig. f_equal. by apply Hhold.
Defined.

(** C7 on 19 closes, one bar short of the window: at the last bar the bands
    are NaN and the signal is Hold. *)
Lemma undefined_indicator_is_hold_witness :
  let run := apply_strategy 0 "Bollinger Bands" (heap_of (bars flat19)) in
  column_at (final run) 0 "Upper Band" 18 = Some NaN
  ∧ column_at (final run) 0 "Lower Band" 18 = Some NaN
  ∧ signal_at (final run) 0 18 = Some Hold.
Proof.
  destruct (undefined_indicator_is_hold (heap_of (bars flat19)) 0 (bars flat19) _
              (heap_of_lookup _) (bars_close _) (bars_length _)) as [_ Hshort].
  assert (Hlen : length (values (FloatCol (Num <$> flat19))) = 19) by reflexivity.
  destruct (Hshort ltac:(rewrite Hlen; unfold default_window; lia) 18
              ltac:(rewrite Hlen; lia)) as [Hnan Hhold].
  cbn zeta. split_and!; [apply Hnan..|exact Hhold];
    unfold bollinger_fields; repeat constructor.
Defined.

(** C8 on 25 closes of 50: at bar 24 the deviation is 0 and both bands equal
    the mean, 50. *)
Lemma bollinger_band_identity_witness :
  let run := calculate_bollinger_bands 0 default_window default_no_of_std
               (heap_of (bars flat25)) in
  column_at (final run) 0 "Upper Band" 24 = Some (Num 50)
  ∧ column_at (final run) 0 "Lower Band" 24 = Some (Num 50).
Proof.
  destruct (bollinger_band_identity (heap_of (bars flat25)) 0 (bars flat25) _
              (heap_of_lookup _) (bars_close _)) as (_ & Hid & _).
  destruct (flat_indicator_columns 25 24) as (Hm & Hs);
    [unfold default_window; lia | lia |].
  destruct (Hid 24 50%R 0%R Hm Hs) as (_ & up & lo & Hup & Hlo & _ & _ & _ & _ & Hzero).
  destruct (Hzero eq_refl) as [-> ->]. by split.
Defined.

(** C10 on the strategy name RSI. *)
Lemma unrecognized_strategy_is_noop_witness :
  apply_strategy 0 "RSI" (heap_of (bars rising)) = (inr 0, heap_of (bars rising)).
Proof. apply unrecognized_strategy_is_noop; discriminate. Defined.

(** C4 on the closes 100, 110, 121 with a principal of 10000. *)
Lemma growth_trajectory_formula_witness :
  let run := calculate_investment_growth 0 10000 "Moderate" (heap_of (bars rising)) in
  ∃ g, growth_of run = Some g
       ∧ column_at (final run) 0 "Moderate Growth" 0
         = Some (Num (10000 * multiplier_of "Moderate"))
       ∧ column_at (final run) 0 "Moderate Growth" 1
         = Some (Num (110 / 100 * 10000 * multiplier_of "Moderate"))
       ∧ column_at (final run) 0 "Moderate Growth" 2 = Some g.
Proof.
  destruct (growth_trajectory_formula (heap_of (bars rising)) 0 (bars rising) _
              10000 "Moderate" 100 (heap_of_lookup _) (bars_close _) eq_refl
              ltac:(lra))
    as (g & roi & Hres & _ & Hnum & Hfirst & Hlast).
  exists g. cbn zeta. unfold growth_of. unfold result in Hres. rewrite Hres.
  split_and!; try done.
  apply (Hnum 1 110%R). reflexivity.
Defined.

(** C9 on the closes 100, 110, 121 with a principal of 10000. *)
Lemma roi_invariant_witness :
  let run := calculate_investment_growth 0 10000 "Moderate" (heap_of (bars rising)) in
  ∃ g roi, result run = inr (g, roi)
           ∧ roi = fmul (fsub (fdiv g (Num 10000)) (Num 1)) (Num 100).
Proof.
  destruct (roi_invariant (heap_of (bars rising)) 0 (bars rising) _ 10000 "Moderate"
              (heap_of_lookup _) (bars_close _) ltac:(discriminate))
    as (g & roi & Hres & Hroi & _).
  by exists g, roi.
Defined.

(** C1 on the falling closes 100, 50: the order of the styles is strict and
    not reversed. *)
Lemma style_ordering_witness :
  let h := heap_of (bars falling) in
  ∃ a m p,
    growth_of (calculate_investment_growth 0 10000 "Aggressive" h) = Some (Num a)
    ∧ growth_of (calculate_investment_growth 0 10000 "Moderate" h) = Some (Num m)
    ∧ growth_of (calculate_investment_growth 0 10000 "Passive" h) = Some (Num p)
    ∧ (p < m)%R ∧ (m < a)%R.
Proof.
  destruct (style_ordering (heap_of (bars falling)) 0 (bars falling) _ 10000 100 50
              (heap_of_lookup _) (bars_close _) eq_refl eq_refl ltac:(lra))
    as (a & m & p & ra & rm & rp & Ha & Hm & Hp & _ & _ & _ & _ & Hstrict).
  destruct (Hstrict ltac:(lra) ltac:(lra)) as [H1 H2].
  exists a, m, p. cbn zeta. unfold growth_of, result in *. rewrite Ha, Hm, Hp. done.
Defined.

(** C2 on a single bar: the call returns principal * multiplier. *)
Lemma growth_failure_modes_witness :
  ∃ roi, result (calculate_investment_growth 0 10000 "Moderate" (heap_of (bars single)))
         = inr (Num (10000 * multiplier_of "Moderate"), roi).
Proof.
  destruct (growth_failure_modes (heap_of (bars single)) 0 (bars single) _ 10000 "Moderate"
              (heap_of_lookup _) (bars_close _)) as (_ & _ & Hone & _).
  apply (Hone 100%R); [reflexivity | lra].
Defined.

(** C3 on the closes 100, 110, 121: same table, same timestamps, same Close
    column. *)
Lemma indicators_keep_prices_witness :
  let h := heap_of (bars rising) in
  let run := calculate_bollinger_bands 0 default_window default_no_of_std h in
  result run = inr 0
  ∧ index_of (final run) 0 = Some (index (bars rising))
  ∧ column_of (final run) 0 "Close" = column_of h 0 "Close".
Proof.
  destruct (indicators_keep_prices (heap_of (bars rising)) 0 (bars rising) _
              default_window default_no_of_std default_short_window default_long_window
              (heap_of_lookup _) (bars_close _))
    as [(Hres & Hidx & Hohlc & _) _].
  cbn zeta. split; [exact Hres|]. split; [exact Hidx|].
  apply Hohlc. unfold ohlc_fields. repeat constructor.
Defined.

(** * Further properties of the program *)

(** X1. Without a Close column both indicator functions, both strategies and
    the growth simulation raise KeyError 'Close', and the heap is left as it
    was. *)
Theorem missing_close_raises_key_error (h : heap) l df w k ws wl amount style :
  h !! l = Some df → columns df !! "Close" = None →
  calculate_bollinger_bands l w k h = (inl (KeyError "Close"), h)
  ∧ calculate_sma l ws wl h = (inl (KeyError "Close"), h)
  ∧ apply_strategy l "Bollinger Bands" h = (inl (KeyError "Close"), h)
  ∧ apply_strategy l "SMA Crossover" h = (inl (KeyError "Close"), h)
  ∧ calculate_investment_growth l amount style h = (inl (KeyError "Close"), h).
Proof.
  intros Hl Hc.
  pose proof (getitem_missing h l df "Close" Hl Hc) as Hget.
  assert (Hbb : ∀ w k, calculate_bollinger_bands l w k h = (inl (KeyError "Close"), h)).
  { intros. unfold calculate_bollinger_bands. by erewrite bind_raise. }
  assert (Hsma : ∀ ws wl, calculate_sma l ws wl h = (inl (KeyError "Close"), h)).
  { intros. unfold calculate_sma. by erewrite bind_raise. }
  split_and!; try done.
  - unfold apply_strategy. cbn [String.eqb Ascii.eqb Bool.eqb].
    by erewrite bind_raise.
  - unfold apply_strategy. cbn [String.eqb Ascii.eqb Bool.eqb].
    by erewrite bind_raise.
  - unfold calculate_investment_growth. by erewrite bind_raise.
Qed.

Lemma missing_close_raises_key_error_witness :
  apply_strategy 0 "Bollinger Bands" (heap_of (mkFrame [] ∅))
  = (inl (KeyError "Close"), heap_of (mkFrame [] ∅)).
Proof.
  destruct (missing_close_raises_key_error (heap_of (mkFrame [] ∅)) 0 (mkFrame [] ∅)
              default_window default_no_of_std default_short_window default_long_window
              0%R "Moderate" (heap_of_lookup _) (lookup_empty _))
    as (_ & _ & H & _).
  exact H.
Defined.

Module Tables.
Local Open Scope nat_scope.

Lemma frame_ext (df1 df2 : DataFrame) :
  index df1 = index df2 → (∀ k, columns df1 !! k = columns df2 !! k) → df1 = df2.
Proof.
  destruct df1 as [i1 c1], df2 as [i2 c2]. cbn. intros -> H. f_equal. by apply map_eq.
Qed.

Lemma bollinger_strategy_frame_index c df :
  index (bollinger_strategy_frame c df) = index df.
Proof. reflexivity. Qed.

Lemma sma_strategy_frame_index c df : index (sma_strategy_frame c df) = index df.
Proof. reflexivity. Qed.

Lemma bollinger_strategy_frame_lookup c df key :
  columns (bollinger_strategy_frame c df) !! key =
    if decide (key = "Signal") then
      Some (signals (length (index df))
              (col_lt (values c) (lower_band default_window default_no_of_std (values c)))
              (col_gt (values c) (upper_band default_window default_no_of_std (values c))))
    else columns (bollinger_frame default_window default_no_of_std c df) !! key.
Proof.
  unfold bollinger_strategy_frame. cbn zeta. rewrite lookup_set_column.
  repeat case_decide; congruence.
Qed.

Lemma sma_strategy_frame_lookup c df key :
  columns (sma_strategy_frame c df) !! key =
    if decide (key = "Signal") then
      Some (signals (length (index df))
              (col_gt (rolling_mean default_short_window (values c))
                      (rolling_mean default_long_window (values c)))
              (col_lt (rolling_mean default_short_window (values c))
                      (rolling_mean default_long_window (values c))))
    else columns (sma_frame default_short_window default_long_window c df) !! key.
Proof.
  unfold sma_strategy_frame. cbn zeta. rewrite lookup_set_column.
  repeat case_decide; congruence.
Qed.

(** Running a strategy on its own output changes nothing. *)
Lemma bollinger_strategy_frame_twice c df :
  bollinger_strategy_frame c (bollinger_strategy_frame c df) = bollinger_strategy_frame c df.
Proof.
  apply frame_ext; [done|]. intros key.
  rewrite !bollinger_strategy_frame_lookup, !bollinger_frame_column,
    !bollinger_strategy_frame_lookup, !bollinger_frame_column.
  rewrite bollinger_strategy_frame_index.
  repeat case_decide; congruence.
Qed.

Lemma sma_strategy_frame_twice c df :
  sma_strategy_frame c (sma_strategy_frame c df) = sma_strategy_frame c df.
Proof.
  apply frame_ext; [done|]. intros key.
  rewrite !sma_strategy_frame_lookup, !sma_frame_column,
    !sma_strategy_frame_lookup, !sma_frame_column.
  rewrite sma_strategy_frame_index.
  repeat case_decide; congruence.
Qed.

Lemma bollinger_strategy_frame_close c df :
  columns df !! "Close" = Some c →
  columns (bollinger_strategy_frame c df) !! "Close" = Some c.
Proof. intros H. destruct (bollinger_columns c df) as (_ & _ & _ & _ & -> & _). done. Qed.

Lemma sma_strategy_frame_close c df :
  columns df !! "Close" = Some c →
  columns (sma_strategy_frame c df) !! "Close" = Some c.
Proof. intros H. destruct (sma_columns c df) as (_ & _ & -> & _). done. Qed.

End Tables.
Export Tables.

(** X2. Applying a strategy to a table that already went through the same
    strategy changes nothing: the second run returns the same table in the
    same state. *)
Theorem apply_strategy_idempotent (h : heap) l df c strategy :
  h !! l = Some df → columns df !! "Close" = Some c →
  let h1 := final (apply_strategy l strategy h) in
  result (apply_strategy l strategy h) = inr l
  ∧ apply_strategy l strategy h1 = (inr l, h1).
Proof.
  intros Hl Hc. cbn zeta.
  destruct (String.eqb_spec strategy "Bollinger Bands") as [->|Hbb].
  { rewrite (apply_strategy_bollinger_run _ _ _ _ Hl Hc). unfold result, final. cbn [fst snd].
    split; [done|].
    rewrite (apply_strategy_bollinger_run _ _ _ c (lookup_insert_eq _ _ _)
               (bollinger_strategy_frame_close _ _ Hc)).
    by rewrite insert_insert_eq, bollinger_strategy_frame_twice. }
  destruct (String.eqb_spec strategy "SMA Crossover") as [->|Hsma].
  { rewrite (apply_strategy_sma_run _ _ _ _ Hl Hc). unfold result, final. cbn [fst snd].
    split; [done|].
    rewrite (apply_strategy_sma_run _ _ _ c (lookup_insert_eq _ _ _)
               (sma_strategy_frame_close _ _ Hc)).
    by rewrite insert_insert_eq, sma_strategy_frame_twice. }
  unfold apply_strategy.
  destruct (String.eqb_spec strategy "Bollinger Bands"); [done|].
  destruct (String.eqb_spec strategy "SMA Crossover"); [done|].
  done.
Qed.

Lemma apply_strategy_idempotent_witness :
  let h1 := final (apply_strategy 0 "Bollinger Bands" (heap_of (bars rising))) in
  apply_strategy 0 "Bollinger Bands" h1 = (inr 0, h1).
Proof.
  exact (proj2 (apply_strategy_idempotent (heap_of (bars rising)) 0 (bars rising) _
                  "Bollinger Bands" (heap_of_lookup _) (bars_close _))).
Defined.

Lemma in_bollinger_fields key :
  key ∈ bollinger_fields ↔
  key = "SMA" ∨ key = "STD" ∨ key = "Upper Band" ∨ key = "Lower Band".
Proof.
  unfold bollinger_fields. rewrite !elem_of_cons, elem_of_nil. tauto.
Qed.

Lemma in_sma_fields key :
  key ∈ sma_fields ↔ key = "SMA_Short" ∨ key = "SMA_Long".
Proof. unfold sma_fields. rewrite !elem_of_cons, elem_of_nil. tauto. Qed.

(** X3. Switching strategy on one table.  The second strategy rewrites Signal
    and its own indicator columns as it would on the fresh table; the
    indicator columns of the first strategy stay in the table as they
    were. *)
Theorem strategy_switch_keeps_stale_indicators (h : heap) l df c :
  h !! l = Some df → columns df !! "Close" = Some c →
  let hb := final (apply_strategy l "Bollinger Bands" h) in
  let hs := final (apply_strategy l "SMA Crossover" h) in
  let hbs := final (apply_strategy l "SMA Crossover" hb) in
  let hsb := final (apply_strategy l "Bollinger Bands" hs) in
  (∀ key, key ∉ bollinger_fields → column_of hbs l key = column_of hs l key)
  ∧ (∀ key, key ∈ bollinger_fields → column_of hbs l key = column_of hb l key)
  ∧ (∀ key, key ∉ sma_fields → column_of hsb l key = column_of hb l key)
  ∧ (∀ key, key ∈ sma_fields → column_of hsb l key = column_of hs l key).
Proof.
  intros Hl Hc. cbn zeta.
  rewrite (apply_strategy_bollinger_run _ _ _ _ Hl Hc).
  rewrite (apply_strategy_sma_run _ _ _ _ Hl Hc).
  unfold final. cbn [snd].
  rewrite (apply_strategy_sma_run _ _ _ c (lookup_insert_eq _ _ _)
             (bollinger_strategy_frame_close _ _ Hc)).
  rewrite (apply_strategy_bollinger_run _ _ _ c (lookup_insert_eq _ _ _)
             (sma_strategy_frame_close _ _ Hc)).
  cbn [snd]. rewrite !insert_insert_eq.
  split_and!; intros key Hkey; rewrite !column_of_insert;
    rewrite ?in_bollinger_fields, ?in_sma_fields in Hkey;
    rewrite ?sma_strategy_frame_lookup, ?sma_frame_column,
      ?bollinger_strategy_frame_lookup, ?bollinger_frame_column,
      ?sma_strategy_frame_lookup, ?sma_frame_column,
      ?sma_strategy_frame_index, ?bollinger_strategy_frame_index;
    repeat case_decide; subst; try done; try (exfalso; tauto);
    try (destruct Hkey as [?|[?|[?|?]]]; congruence);
    try (destruct Hkey as [?|?]; congruence).
Qed.

Lemma strategy_switch_keeps_stale_indicators_witness :
  let hb := final (apply_strategy 0 "Bollinger Bands" (heap_of (bars rising))) in
  let hbs := final (apply_strategy 0 "SMA Crossover" hb) in
  column_of hbs 0 "Upper Band" = column_of hb 0 "Upper Band".
Proof.
  destruct (strategy_switch_keeps_stale_indicators (heap_of (bars rising)) 0 (bars rising) _
              (heap_of_lookup _) (bars_close _)) as (_ & H & _).
  apply H. unfold bollinger_fields. repeat constructor.
Defined.

Module GrowthFacts.
Local Open Scope nat_scope.

Lemma append_length s t : String.length (s +:+ t) = String.length s + String.length t.
Proof. induction s as [|a s IH]; [done|]. cbn. rewrite <- IH. reflexivity. Qed.

Lemma append_suffix_inj t s1 s2 : s1 +:+ t = s2 +:+ t → s1 = s2.
Proof.
  revert s2. induction s1 as [|a s1 IH]; intros [|b s2] H.
  - done.
  - apply (f_equal String.length) in H. rewrite !append_length in H. cbn in H. lia.
  - apply (f_equal String.length) in H. rewrite !append_length in H. cbn in H. lia.
  - change (String a (s1 +:+ t) = String b (s2 +:+ t)) in H.
    injection H as -> H. f_equal. by apply IH.
Qed.

Lemma growth_frame_lookup s amount style c df key :
  columns (growth_frame s amount style c df) !! key =
    if decide (key = style +:+ " Growth")
    then Some (FloatCol (scaled s amount (multiplier_of style) <$> values c))
    else columns df !! key.
Proof.
  unfold growth_frame. rewrite lookup_set_column. repeat case_decide; congruence.
Qed.

Lemma growth_key_not_close style : "Close" ≠ style +:+ " Growth".
Proof.
  intros H. apply (f_equal String.length) in H. rewrite append_length in H.
  cbn in H. lia.
Qed.

End GrowthFacts.
Export GrowthFacts.

(** X4. For finite closes that never fall, a positive first close and a
    non-negative principal, the stored trajectory never falls either, for
    every style. *)
Theorem growth_trajectory_monotone (h : heap) l df c (rs : list R) amount style s0 :
  h !! l = Some df → columns df !! "Close" = Some c →
  values c = Num <$> rs → head rs = Some s0 → (0 < s0)%R → (0 <= amount)%R →
  (∀ i j a b, i ≤ j → rs !! i = Some a → rs !! j = Some b → (a <= b)%R) →
  let run := calculate_investment_growth l amount style h in
  let key := style +:+ " Growth" in
  ∀ i j, i ≤ j → j < length rs →
    ∃ x y, column_at (final run) l key i = Some (Num x)
           ∧ column_at (final run) l key j = Some (Num y)
           ∧ (x <= y)%R.
Proof.
  intros Hl Hc Hv Hs Hpos Ham Hmono run key i j Hij Hj. subst run key.
  assert (Hne : rs ≠ []) by (intros ->; discriminate).
  destruct (head_last_nonempty rs Hne) as (s & e & Hs' & He).
  rewrite Hs in Hs'. injection Hs' as <-.
  rewrite (calculate_investment_growth_run _ _ _ _ amount style (Num s0) (Num e) Hl Hc)
    by (rewrite Hv; first [ by rewrite fmap_last, He | by destruct rs; simplify_eq/= ]).
  unfold final. cbn [snd]. rewrite !growth_column, Hv, !list_lookup_fmap.
  destruct (lookup_lt_is_Some_2 rs j Hj) as [b Hb].
  destruct (lookup_lt_is_Some_2 rs i ltac:(lia)) as [a Ha].
  rewrite Ha, Hb. cbn. rewrite !scaled_num by lra.
  eexists _, _. split; [reflexivity|]. split; [reflexivity|].
  pose proof (Hmono i j a b Hij Ha Hb) as Hab.
  pose proof (multiplier_of_pos style) as Hm.
  assert (0 < / s0)%R by (apply Rinv_0_lt_compat; lra).
  unfold Rdiv. apply Rmult_le_compat_r; [lra|].
  apply Rmult_le_compat_r; [done|].
  apply Rmult_le_compat_r; lra.
Qed.

Lemma growth_trajectory_monotone_witness :
  let run := calculate_investment_growth 0 10000 "Passive" (heap_of (bars rising)) in
  ∃ x y, column_at (final run) 0 "Passive Growth" 0 = Some (Num x)
         ∧ column_at (final run) 0 "Passive Growth" 2 = Some (Num y)
         ∧ (x <= y)%R.
Proof.
  apply (growth_trajectory_monotone (heap_of (bars rising)) 0 (bars rising) _ rising
           10000 "Passive" 100 (heap_of_lookup _) (bars_close _) eq_refl eq_refl);
    [lra | lra | | lia | cbn; lia].
  intros i j a b Hij Ha Hb. unfold rising in *.
  destruct i as [|[|[|i]]], j as [|[|[|j]]]; cbn in Ha, Hb; simplify_eq; try lia; lra.
Defined.

(** X5. The growth simulation writes the column "<style> Growth" and nothing
    else: the index, the Close column and every other column of the table,
    and every other object of the heap, are as before. *)
Theorem growth_writes_one_column (h : heap) l df c amount style :
  h !! l = Some df → columns df !! "Close" = Some c → values c ≠ [] →
  let run := calculate_investment_growth l amount style h in
  index_of (final run) l = Some (index df)
  ∧ (∀ key, key ≠ style +:+ " Growth" → column_of (final run) l key = column_of h l key)
  ∧ column_of (final run) l "Close" = Some c
  ∧ is_Some (column_of (final run) l (style +:+ " Growth"))
  ∧ (∀ l', l' ≠ l → final run !! l' = h !! l')
  ∧ dom (final run) = dom h.
Proof.
  intros Hl Hc Hne run. subst run.
  destruct (head_last_nonempty (values c) Hne) as (s & e & Hs & He).
  rewrite (calculate_investment_growth_run _ _ _ _ amount style _ _ Hl Hc Hs He).
  unfold final. cbn [snd].
  assert (Hcol : ∀ key, column_of h l key = columns df !! key).
  { intros key. unfold column_of. by rewrite Hl. }
  split_and!.
  - by rewrite index_of_insert.
  - intros key Hkey. rewrite column_of_insert, growth_frame_lookup, Hcol. by case_decide.
  - rewrite column_of_insert, growth_frame_lookup.
    case_decide as Hk; [by apply growth_key_not_close in Hk|done].
  - rewrite column_of_insert, growth_frame_lookup. case_decide; [eauto|done].
  - intros l' Hne'. by rewrite lookup_insert_ne.
  - by eapply insert_frame_dom.
Qed.

Lemma growth_writes_one_column_witness :
  let h := final (apply_strategy 0 "Bollinger Bands" (heap_of (bars rising))) in
  let run := calculate_investment_growth 0 10000 "Moderate" h in
  column_of (final run) 0 "Signal" = column_of h 0 "Signal".
Proof.
  cbn zeta.
  rewrite (apply_strategy_bollinger_run _ _ _ _ (heap_of_lookup _) (bars_close rising)).
  unfold final at 2 3. cbn [snd].
  destruct (growth_writes_one_column
              (<[0 := bollinger_strategy_frame (FloatCol (Num <$> rising)) (bars rising)]>
                 (heap_of (bars rising))) 0 _ (FloatCol (Num <$> rising)) 10000 "Moderate"
              (lookup_insert_eq _ _ _))
    as (_ & H & _).
  - destruct (bollinger_columns (FloatCol (Num <$> rising)) (bars rising))
      as (_ & _ & _ & _ & -> & _). apply bars_close.
  - discriminate.
  - apply H. discriminate.
Defined.

Module GrowthCompose.
Local Open Scope nat_scope.

(** The growth simulation reads the Close column and nothing else. *)
Lemma growth_reads_close_only (h1 h2 : heap) l df1 df2 c amount style :
  h1 !! l = Some df1 → h2 !! l = Some df2 →
  columns df1 !! "Close" = Some c → columns df2 !! "Close" = Some c →
  result (calculate_investment_growth l amount style h1)
  = result (calculate_investment_growth l amount style h2)
  ∧ (values c ≠ [] →
     column_of (final (calculate_investment_growth l amount style h1)) l (style +:+ " Growth")
     = column_of (final (calculate_investment_growth l amount style h2)) l
         (style +:+ " Growth")).
Proof.
  intros Hl1 Hl2 Hc1 Hc2.
  destruct (values c) as [|x xs] eqn:Hv.
  - rewrite (calculate_investment_growth_empty _ _ _ _ amount style Hl1 Hc1 Hv).
    rewrite (calculate_investment_growth_empty _ _ _ _ amount style Hl2 Hc2 Hv).
    by split.
  - destruct (head_last_nonempty (values c)) as (s & e & Hs & He); [by rewrite Hv|].
    rewrite (calculate_investment_growth_run _ _ _ _ amount style _ _ Hl1 Hc1 Hs He).
    rewrite (calculate_investment_growth_run _ _ _ _ amount style _ _ Hl2 Hc2 Hs He).
    unfold result, final. cbn [fst snd]. split; [done|]. intros _.
    rewrite !column_of_insert, !growth_frame_lookup. by case_decide.
Qed.

Lemma apply_strategy_other_run (h : heap) l strategy :
  strategy ≠ "Bollinger Bands" → strategy ≠ "SMA Crossover" →
  apply_strategy l strategy h = (inr l, h).
Proof.
  intros H1 H2. unfold apply_strategy.
  destruct (String.eqb_spec strategy "Bollinger Bands"); [done|].
  by destruct (String.eqb_spec strategy "SMA Crossover").
Qed.

Lemma apply_strategy_keeps_close (h : heap) l df c strategy :
  h !! l = Some df → columns df !! "Close" = Some c →
  ∃ df', final (apply_strategy l strategy h) !! l = Some df'
         ∧ columns df' !! "Close" = Some c.
Proof.
  intros Hl Hc.
  destruct (String.eqb_spec strategy "Bollinger Bands") as [->|Hbb].
  { rewrite (apply_strategy_bollinger_run _ _ _ _ Hl Hc). unfold final. cbn [snd].
    eexists. split; [apply lookup_insert_eq|]. by apply bollinger_strategy_frame_close. }
  destruct (String.eqb_spec strategy "SMA Crossover") as [->|Hsma].
  { rewrite (apply_strategy_sma_run _ _ _ _ Hl Hc). unfold final. cbn [snd].
    eexists. split; [apply lookup_insert_eq|]. by apply sma_strategy_frame_close. }
  rewrite (apply_strategy_other_run h l strategy) by done. eauto.
Qed.

End GrowthCompose.
Export GrowthCompose.


(** X6. Signals do not gate growth: after [apply_strategy], for any strategy
    name, the growth simulation returns the same final value and ROI and
    stores the same trajectory as on the table without signals. *)
Theorem growth_ignores_strategy (h : heap) l df c amount style strategy :
  h !! l = Some df → columns df !! "Close" = Some c → values c ≠ [] →
  let h' := final (apply_strategy l strategy h) in
  result (calculate_investment_growth l amount style h')
  = result (calculate_investment_growth l amount style h)
  ∧ column_of (final (calculate_investment_growth l amount style h')) l (style +:+ " Growth")
    = column_of (final (calculate_investment_growth l amount style h)) l (style +:+ " Growth")
  ∧ ∃ g roi, result (calculate_investment_growth l amount style h') = inr (g, roi).
Proof.
  intros Hl Hc Hne. cbn zeta.
  destruct (apply_strategy_keeps_close h l df c strategy Hl Hc) as (df' & Hl' & Hc').
  destruct (growth_reads_close_only _ h l df' df c amount style Hl' Hl Hc' Hc)
    as [Hres Hcol].
  split; [done|]. split; [by apply Hcol|].
  destruct (head_last_nonempty (values c) Hne) as (s & e & Hs & He).
  rewrite (calculate_investment_growth_run _ _ _ _ amount style _ _ Hl' Hc' Hs He).
  by eexists _, _.
Qed.

Lemma growth_ignores_strategy_witness :
  result (calculate_investment_growth 0 10000 "Aggressive"
            (final (apply_strategy 0 "SMA Crossover" (heap_of (bars falling)))))
  = result (calculate_investment_growth 0 10000 "Aggressive" (heap_of (bars falling))).
Proof.
  exact (proj1 (growth_ignores_strategy (heap_of (bars falling)) 0 (bars falling) _
                  10000 "Aggressive" "SMA Crossover" (heap_of_lookup _) (bars_close _)
                  ltac:(discriminate))).
Defined.

(** X7. Running the growth simulation for one style and then for another on
    the same table: the second run returns what it returns on the fresh
    table, and the trajectory of the first style is still there.  Running
    the same style again changes nothing. *)
Theorem style_runs_do_not_interfere (h : heap) l df c amount s1 s2 :
  h !! l = Some df → columns df !! "Close" = Some c → values c ≠ [] →
  let h1 := final (calculate_investment_growth l amount s1 h) in
  let run2 := calculate_investment_growth l amount s2 h1 in
  result run2 = result (calculate_investment_growth l amount s2 h)
  ∧ column_of (final run2) l (s2 +:+ " Growth")
    = column_of (final (calculate_investment_growth l amount s2 h)) l (s2 +:+ " Growth")
  ∧ (s1 ≠ s2 →
     column_of (final run2) l (s1 +:+ " Growth") = column_of h1 l (s1 +:+ " Growth"))
  ∧ (s1 = s2 → final run2 = h1).
Proof.
  intros Hl Hc Hne. cbn zeta.
  destruct (head_last_nonempty (values c) Hne) as (s & e & Hs & He).
  rewrite (calculate_investment_growth_run _ _ _ _ amount s1 _ _ Hl Hc Hs He).
  unfold result, final. cbn [fst snd].
  assert (Hc1 : columns (growth_frame s amount s1 c df) !! "Close" = Some c).
  { rewrite growth_frame_lookup.
    case_decide as Hk; [by apply growth_key_not_close in Hk|done]. }
  rewrite (calculate_investment_growth_run _ _ _ _ amount s2 _ _
             (lookup_insert_eq _ _ _) Hc1 Hs He).
  rewrite (calculate_investment_growth_run _ _ _ _ amount s2 _ _ Hl Hc Hs He).
  cbn [fst snd]. rewrite insert_insert_eq.
  split; [done|]. split_and!.
  - rewrite !column_of_insert, !growth_frame_lookup. by case_decide.
  - intros Hdiff. rewrite !column_of_insert, !growth_frame_lookup.
    case_decide as Hk; [by apply append_suffix_inj in Hk|]. by case_decide.
  - intros ->. f_equal. apply frame_ext; [done|]. intros key.
    rewrite !growth_frame_lookup. by case_decide.
Qed.

Lemma style_runs_do_not_interfere_witness :
  let h1 := final (calculate_investment_growth 0 10000 "Aggressive" (heap_of (bars rising))) in
  let run2 := calculate_investment_growth 0 10000 "Moderate" h1 in
  column_of (final run2) 0 "Aggressive Growth" = column_of h1 0 "Aggressive Growth".
Proof.
  destruct (style_runs_do_not_interfere (heap_of (bars rising)) 0 (bars rising) _
              10000 "Aggressive" "Moderate" (heap_of_lookup _) (bars_close _)
              ltac:(discriminate)) as (_ & _ & H & _).
  apply H. discriminate.
Defined.

Module PerBar.
Local Open Scope nat_scope.

Lemma bollinger_signal_at (h : heap) l df c i x :
  h !! l = Some df → columns df !! "Close" = Some c →
  length (values c) = length (index df) →
  values c !! i = Some x →
  signal_at (final (apply_strategy l "Bollinger Bands" h)) l i
  = Some (signal_of_Z (bollinger_mark (values c) i x)).
Proof.
  intros Hl Hc Hlen Hx.
  rewrite (apply_strategy_bollinger_run _ _ _ _ Hl Hc). unfold final. cbn [snd].
  destruct (bollinger_columns c df) as (_ & _ & _ & _ & _ & Ksig).
  assert (Hi : i < length (values c)) by by eapply lookup_lt_Some.
  destruct (signals_lookup (length (index df))
              (col_lt (values c) (lower_band default_window default_no_of_std (values c)))
              (col_gt (values c) (upper_band default_window default_no_of_std (values c)))
              i (flt x (lower_at (values c) i)) (fgt x (upper_at (values c) i)))
    as (zs & Ezs & Hz).
  { lia. }
  { unfold col_lt. by rewrite lookup_zip_with, Hx, lower_band_lookup. }
  { unfold col_gt. by rewrite lookup_zip_with, Hx, upper_band_lookup. }
  rewrite Ezs in Ksig. by rewrite (signal_at_insert _ _ _ _ _ Ksig), Hz.
Qed.

Lemma sma_signal_at (h : heap) l df c i :
  h !! l = Some df → columns df !! "Close" = Some c →
  length (values c) = length (index df) →
  i < length (values c) →
  signal_at (final (apply_strategy l "SMA Crossover" h)) l i
  = Some (signal_of_Z (sma_mark (values c) i)).
Proof.
  intros Hl Hc Hlen Hi.
  rewrite (apply_strategy_sma_run _ _ _ _ Hl Hc). unfold final. cbn [snd].
  destruct (sma_columns c df) as (_ & _ & _ & Ksig).
  destruct (signals_lookup (length (index df))
              (col_gt (rolling_mean default_short_window (values c))
                      (rolling_mean default_long_window (values c)))
              (col_lt (rolling_mean default_short_window (values c))
                      (rolling_mean default_long_window (values c)))
              i (fgt (mean_at default_short_window (values c) i)
                     (mean_at default_long_window (values c) i))
                (flt (mean_at default_short_window (values c) i)
                     (mean_at default_long_window (values c) i)))
    as (zs & Ezs & Hz).
  { lia. }
  { unfold col_gt. by rewrite lookup_zip_with, !rolling_mean_lookup. }
  { unfold col_lt. by rewrite lookup_zip_with, !rolling_mean_lookup. }
  rewrite Ezs in Ksig. by rewrite (signal_at_insert _ _ _ _ _ Ksig), Hz.
Qed.

Lemma signal_at_out_of_range (h : heap) l df c strategy i :
  h !! l = Some df → columns df !! "Close" = Some c →
  length (values c) = length (index df) →
  strategy = "Bollinger Bands" ∨ strategy = "SMA Crossover" →
  length (index df) ≤ i →
  signal_at (final (apply_strategy l strategy h)) l i = None.
Proof.
  intros Hl Hc Hlen Hs Hi.
  assert (Hsig : ∀ n buy sell, ∃ zs, signals n buy sell = IntCol zs ∧ length zs ≤ n).
  { intros n buy sell. unfold signals, mask_assign. eexists. split; [reflexivity|].
    rewrite !length_zip_with, length_replicate. lia. }
  destruct Hs as [-> | ->].
  - rewrite (apply_strategy_bollinger_run _ _ _ _ Hl Hc). unfold final. cbn [snd].
    destruct (bollinger_columns c df) as (_ & _ & _ & _ & _ & Ksig).
    destruct (Hsig (length (index df))
                (col_lt (values c) (lower_band default_window default_no_of_std (values c)))
                (col_gt (values c) (upper_band default_window default_no_of_std (values c))))
      as (zs & Ezs & Hzs).
    rewrite Ezs in Ksig. rewrite (signal_at_insert _ _ _ _ _ Ksig).
    rewrite lookup_ge_None_2 by lia. done.
  - rewrite (apply_strategy_sma_run _ _ _ _ Hl Hc). unfold final. cbn [snd].
    destruct (sma_columns c df) as (_ & _ & _ & Ksig).
    destruct (Hsig (length (index df))
                (col_gt (rolling_mean default_short_window (values c))
                        (rolling_mean default_long_window (values c)))
                (col_lt (rolling_mean default_short_window (values c))
                        (rolling_mean default_long_window (values c))))
      as (zs & Ezs & Hzs).
    rewrite Ezs in Ksig. rewrite (signal_at_insert _ _ _ _ _ Ksig).
    rewrite lookup_ge_None_2 by lia. done.
Qed.

End PerBar.
Export PerBar.

(** X9. After a known strategy the Signal column has exactly one entry for
    each bar of the table, whatever the closes are (NaN and infinities
    included), and none beyond the last bar. *)
Theorem one_signal_per_bar (h : heap) l df c strategy :
  h !! l = Some df → columns df !! "Close" = Some c →
  length (values c) = length (index df) →
  strategy = "Bollinger Bands" ∨ strategy = "SMA Crossover" →
  ∀ i, (i < length (index df) →
        ∃ s, signal_at (final (apply_strategy l strategy h)) l i = Some s)
       ∧ (length (index df) ≤ i →
          signal_at (final (apply_strategy l strategy h)) l i = None).
Proof.
  intros Hl Hc Hlen Hs i. split.
  - intros Hi. destruct Hs as [-> | ->].
    + destruct (lookup_lt_is_Some_2 (values c) i) as [x Hx]; [lia|].
      rewrite (bollinger_signal_at h l df c i x) by done. eauto.
    + rewrite (sma_signal_at h l df c i) by (try done; lia). eauto.
  - intros Hi. by eapply signal_at_out_of_range.
Qed.

Lemma one_signal_per_bar_witness :
  (∃ s, signal_at (final (apply_strategy 0 "Bollinger Bands" (heap_of (bars rising)))) 0 2
        = Some s)
  ∧ signal_at (final (apply_strategy 0 "Bollinger Bands" (heap_of (bars rising)))) 0 3 = None.
Proof.
  pose proof (one_signal_per_bar (heap_of (bars rising)) 0 (bars rising) _ "Bollinger Bands"
                (heap_of_lookup _) (bars_close _) (bars_length _) (or_introl eq_refl)) as H.
  split.
  - apply (proj1 (H 2)). cbn. lia.
  - apply (proj2 (H 3)). cbn. lia.
Defined.

Module Windows.
Local Open Scope nat_scope.

Lemma Rltb_irrefl a : Rltb a a = false.
Proof. unfold Rltb. destruct (Rlt_dec a a); [lra|done]. Qed.

Lemma mean_at_flat_cases w n x i :
  i < n →
  mean_at w (Num <$> replicate n x) i = NaN ∨ mean_at w (Num <$> replicate n x) i = Num x.
Proof.
  intros Hi. destruct (decide (0 < w ∧ w ≤ S i)) as [[H0 Hw]|Hno].
  - right. by apply mean_at_flat.
  - left. unfold mean_at, window.
    destruct (Nat.ltb_spec 0 w); [|done].
    destruct (Nat.leb_spec w (S i)); [lia|done].
Qed.

Lemma bollinger_mark_flat n x i :
  i < n → bollinger_mark (Num <$> replicate n x) i (Num x) = 0%Z.
Proof.
  intros Hi. unfold bollinger_mark, upper_at, lower_at, fgt.
  destruct (decide (default_window ≤ S i)) as [Hw|Hw].
  - unfold default_window in *.
    rewrite mean_at_flat, std_at_flat by lia. cbn.
    unfold Rltb.
    destruct (Rlt_dec (x + IZR default_no_of_std * 0) x) as [E|E];
      [unfold default_no_of_std in E; lra|].
    destruct (Rlt_dec x (x + - (IZR default_no_of_std * 0))) as [E'|E'];
      [unfold default_no_of_std in E'; lra|done].
  - unfold mean_at, std_at. rewrite window_early by lia. done.
Qed.

Lemma sma_mark_flat n x i :
  i < n → sma_mark (Num <$> replicate n x) i = 0%Z.
Proof.
  intros Hi. unfold sma_mark, fgt. cbn zeta.
  destruct (mean_at_flat_cases default_short_window n x i Hi) as [-> | ->],
           (mean_at_flat_cases default_long_window n x i Hi) as [-> | ->];
    cbn; by rewrite ?Rltb_irrefl.
Qed.

(** A window that meets a close that is not a finite number is undefined. *)
Lemma window_blocked w xs i j y :
  xs !! j = Some y → finite y = None → j ≤ i → i < j + w →
  window w xs i = None.
Proof.
  intros Hj Hy Hji Hi.
  destruct (window w xs i) as [rs|] eqn:E; [|done]. exfalso.
  unfold window in E.
  destruct (Nat.ltb_spec 0 w); [|discriminate].
  destruct (Nat.leb_spec w (S i)); [|discriminate]. cbn in E.
  apply finites_Some in E.
  assert (Hlook : (take w (drop (S i - w) xs)) !! (j - (S i - w)) = Some y).
  { rewrite lookup_take_lt by lia. rewrite lookup_drop. rewrite <- Hj. f_equal. lia. }
  rewrite E, list_lookup_fmap in Hlook.
  destruct (rs !! (j - (S i - w))); simplify_eq/=.
Qed.

(** The window at a bar reads the [w] closes ending at the bar only. *)
Lemma window_local w xs ys i :
  (∀ j, S i - w ≤ j → j ≤ i → xs !! j = ys !! j) →
  window w xs i = window w ys i.
Proof.
  intros Hagree. unfold window.
  destruct (Nat.ltb_spec 0 w); [|done].
  destruct (Nat.leb_spec w (S i)); [|done]. cbn [andb].
  f_equal. apply list_eq. intros k.
  destruct (decide (k < w)) as [Hk|Hk].
  - rewrite !lookup_take_lt, !lookup_drop by done. apply Hagree; lia.
  - rewrite !lookup_take_ge by lia. done.
Qed.

Lemma mean_at_local w xs ys i :
  (∀ j, S i - w ≤ j → j ≤ i → xs !! j = ys !! j) → mean_at w xs i = mean_at w ys i.
Proof. intros H. unfold mean_at. by rewrite (window_local w xs ys i). Qed.

Lemma std_at_local w xs ys i :
  (∀ j, S i - w ≤ j → j ≤ i → xs !! j = ys !! j) → std_at w xs i = std_at w ys i.
Proof. intros H. unfold std_at. by rewrite (window_local w xs ys i). Qed.

End Windows.
Export Windows.


(** X10. On a series whose closes are all the same number, of any length,
    both strategies give Hold on every bar. *)
Theorem flat_series_never_signals (h : heap) l df c n x strategy i :
  h !! l = Some df → columns df !! "Close" = Some c →
  length (values c) = length (index df) →
  values c = Num <$> replicate n x →
  strategy = "Bollinger Bands" ∨ strategy = "SMA Crossover" →
  i < n →
  signal_at (final (apply_strategy l strategy h)) l i = Some Hold.
Proof.
  intros Hl Hc Hlen Hv Hs Hi.
  assert (Hx : values c !! i = Some (Num x)).
  { by rewrite Hv, list_lookup_fmap, lookup_replicate_2. }
  destruct Hs as [-> | ->].
  - rewrite (bollinger_signal_at h l df c i (Num x)) by done.
    by rewrite Hv, bollinger_mark_flat.
  - rewrite (sma_signal_at h l df c i) by (try done; by eapply lookup_lt_Some).
    by rewrite Hv, sma_mark_flat.
Qed.

Lemma flat_series_never_signals_witness :
  signal_at (final (apply_strategy 0 "Bollinger Bands" (heap_of (bars flat25)))) 0 20
  = Some Hold.
Proof.
  apply (flat_series_never_signals (heap_of (bars flat25)) 0 (bars flat25) _ 25 50%R
           "Bollinger Bands" 20 (heap_of_lookup _) (bars_close _) (bars_length _) eq_refl
           (or_introl eq_refl)).
  lia.
Defined.

(** X11. A close that is NaN or infinite at bar j blanks the indicators of
    the bars whose window contains it: the Bollinger bands are NaN and the
    signal is Hold on bars j .. j+19, the long average is NaN and the
    crossover signal is Hold on bars j .. j+199. *)
Theorem bad_close_blanks_following_bars (h : heap) l df c j y i :
  h !! l = Some df → columns df !! "Close" = Some c →
  length (values c) = length (index df) →
  values c !! j = Some y → finite y = None →
  j ≤ i → i < length (values c) →
  (i < j + default_window →
     column_at (final (apply_strategy l "Bollinger Bands" h)) l "Upper Band" i = Some NaN
     ∧ column_at (final (apply_strategy l "Bollinger Bands" h)) l "Lower Band" i = Some NaN
     ∧ signal_at (final (apply_strategy l "Bollinger Bands" h)) l i = Some Hold)
  ∧ (i < j + default_long_window →
     column_at (final (apply_strategy l "SMA Crossover" h)) l "SMA_Long" i = Some NaN
     ∧ signal_at (final (apply_strategy l "SMA Crossover" h)) l i = Some Hold).
Proof.
  intros Hl Hc Hlen Hj Hy Hji Hi. split.
  - intros Hw.
    assert (Hwin : window default_window (values c) i = None)
      by (by eapply window_blocked).
    destruct (lookup_lt_is_Some_2 (values c) i Hi) as [x Hx].
    rewrite (bollinger_signal_at h l df c i x) by done.
    rewrite (apply_strategy_bollinger_run _ _ _ _ Hl Hc). unfold final. cbn [snd].
    destruct (bollinger_columns c df) as (_ & _ & Kup & Klo & _ & _).
    rewrite !column_at_insert, Kup, Klo. cbn [mbind option_bind values].
    rewrite upper_band_lookup, lower_band_lookup by done.
    unfold bollinger_mark, upper_at, lower_at, fgt, mean_at, std_at. rewrite Hwin. cbn.
    by rewrite flt_nan_r.
  - intros Hw.
    assert (Hwin : window default_long_window (values c) i = None)
      by (by eapply window_blocked).
    rewrite (sma_signal_at h l df c i) by done.
    rewrite (apply_strategy_sma_run _ _ _ _ Hl Hc). unfold final. cbn [snd].
    destruct (sma_columns c df) as (_ & Kl & _ & _).
    rewrite !column_at_insert, Kl. cbn [mbind option_bind values].
    rewrite rolling_mean_lookup by done.
    unfold sma_mark, fgt. cbn zeta.
    assert (Hlong : mean_at default_long_window (values c) i = NaN)
      by (unfold mean_at; by rewrite Hwin).
    rewrite Hlong. by rewrite flt_nan_r.
Qed.

Lemma gapped_frame_length :
  length (values (FloatCol gapped25)) = length (index gapped_frame).
Proof. reflexivity. Qed.

Lemma bad_close_blanks_following_bars_witness :
  let run := apply_strategy 0 "Bollinger Bands" (heap_of gapped_frame) in
  let flat := apply_strategy 0 "Bollinger Bands" (heap_of (bars flat25)) in
  column_at (final run) 0 "Upper Band" 24 = Some NaN
  ∧ column_at (final run) 0 "Lower Band" 24 = Some NaN
  ∧ signal_at (final run) 0 24 = Some Hold
  ∧ column_at (final flat) 0 "Upper Band" 24 = Some (Num 50).
Proof.
  destruct (bad_close_blanks_following_bars (heap_of gapped_frame) 0 gapped_frame
              (FloatCol gapped25) 10 NaN 24
              (heap_of_lookup _) (lookup_insert_eq _ _ _) gapped_frame_length
              eq_refl eq_refl ltac:(lia) ltac:(cbn; lia)) as [H _].
  destruct (H ltac:(unfold default_window; lia)) as (Hup & Hlo & Hsig).
  destruct (flat_band_columns 25 24) as (_ & Hflat & _);
    [unfold default_window; lia | lia |].
  cbn zeta. split; [exact Hup|]. split; [exact Hlo|]. split; [exact Hsig|exact Hflat].
Defined.

(** X12. No look-ahead: the signal of a bar is decided by the closes up to
    that bar.  Two tables whose closes agree on bars 0 .. i have the same
    signal at bar i, for both strategies, whatever the later bars are. *)
Theorem later_bars_do_not_change_signal (h1 h2 : heap) l1 l2 df1 df2 c1 c2 strategy i :
  h1 !! l1 = Some df1 → h2 !! l2 = Some df2 →
  columns df1 !! "Close" = Some c1 → columns df2 !! "Close" = Some c2 →
  length (values c1) = length (index df1) → length (values c2) = length (index df2) →
  strategy = "Bollinger Bands" ∨ strategy = "SMA Crossover" →
  i < length (values c1) → i < length (values c2) →
  (∀ j, j ≤ i → values c1 !! j = values c2 !! j) →
  signal_at (final (apply_strategy l1 strategy h1)) l1 i
  = signal_at (final (apply_strategy l2 strategy h2)) l2 i.
Proof.
  intros Hl1 Hl2 Hc1 Hc2 Hlen1 Hlen2 Hs Hi1 Hi2 Hagree.
  assert (Hwin : ∀ w j, S i - w ≤ j → j ≤ i → values c1 !! j = values c2 !! j)
    by (intros w j _ Hj; by apply Hagree).
  destruct Hs as [-> | ->].
  - destruct (lookup_lt_is_Some_2 (values c1) i Hi1) as [x Hx1].
    assert (Hx2 : values c2 !! i = Some x) by (by rewrite <- Hagree).
    rewrite (bollinger_signal_at h1 l1 df1 c1 i x) by done.
    rewrite (bollinger_signal_at h2 l2 df2 c2 i x) by done.
    unfold bollinger_mark, upper_at, lower_at.
    by rewrite (mean_at_local _ _ _ _ (Hwin default_window)),
         (std_at_local _ _ _ _ (Hwin default_window)).
  - rewrite (sma_signal_at h1 l1 df1 c1 i) by done.
    rewrite (sma_signal_at h2 l2 df2 c2 i) by done.
    unfold sma_mark. cbn zeta.
    by rewrite (mean_at_local _ _ _ _ (Hwin default_long_window)),
         (mean_at_local _ _ _ _ (Hwin default_short_window)).
Qed.

Lemma later_bars_do_not_change_signal_witness :
  signal_at (final (apply_strategy 0 "Bollinger Bands" (heap_of (bars climb27)))) 0 24
  = signal_at (final (apply_strategy 0 "Bollinger Bands" (heap_of (bars climb25)))) 0 24.
Proof.
  apply (later_bars_do_not_change_signal
           (heap_of (bars climb27)) (heap_of (bars climb25)) 0 0
           (bars climb27) (bars climb25) _ _ "Bollinger Bands" 24
           (heap_of_lookup _) (heap_of_lookup _) (bars_close _) (bars_close _)
           (bars_length _) (bars_length _) (or_introl eq_refl));
    [cbn; lia | cbn; lia |].
  intros j Hj. cbn [values]. unfold climb27.
  rewrite fmap_app. apply lookup_app_l.
  rewrite length_fmap. unfold climb25. rewrite length_fmap, length_seq. lia.
Defined.

(** X14. When the first close is NaN the growth simulation raises nothing:
    it returns NaN as final value and as ROI, and every value of the stored
    trajectory is NaN. *)
Theorem missing_first_close_gives_nan (h : heap) l df c amount style :
  h !! l = Some df → columns df !! "Close" = Some c →
  head (values c) = Some NaN →
  let run := calculate_investment_growth l amount style h in
  result run = inr (NaN, NaN)
  ∧ ∀ i, i < length (values c) →
      column_at (final run) l (style +:+ " Growth") i = Some NaN.
Proof.
  intros Hl Hc Hs run. subst run.
  destruct (head_last_nonempty (values c)) as (s & e & Hs' & He).
  { intros Hnil. by rewrite Hnil in Hs. }
  rewrite Hs in Hs'. injection Hs' as <-.
  rewrite (calculate_investment_growth_run _ _ _ _ amount style _ _ Hl Hc Hs He).
  unfold result, final. cbn [fst snd].
  assert (Hnan : ∀ x, scaled NaN amount (multiplier_of style) x = NaN).
  { intros x. unfold scaled. by destruct x. }
  split.
  - by rewrite Hnan.
  - intros i Hi. rewrite growth_column.
    destruct (lookup_lt_is_Some_2 (values c) i Hi) as [x ->]. cbn. by rewrite Hnan.
Qed.

Lemma missing_first_close_gives_nan_witness :
  let df := mkFrame [0; 1]%Z (<["Close" := FloatCol [NaN; Num 121]]> ∅) in
  result (calculate_investment_growth 0 10000 "Moderate" (heap_of df)) = inr (NaN, NaN).
Proof.
  exact (proj1 (missing_first_close_gives_nan
                  (heap_of (mkFrame [0; 1]%Z (<["Close" := FloatCol [NaN; Num 121]]> ∅)))
                  0 _ (FloatCol [NaN; Num 121]) 10000 "Moderate"
                  (heap_of_lookup _) (lookup_insert_eq _ _ _) eq_refl)).
Defined.
